(** * Factor-Investing-Analyzer: the quantitative core, embedded in Rocq

    The development follows the three source modules:
    - [src/factors.py]   : [FactorDataLoader]   (module [Factors])
    - [src/analysis.py]  : [PerformanceAnalyzer] (module [Analysis])
    - [src/geography.py] : [GeographyAnalyzer]  (module [Geography])

    Numbers.  A pandas cell is a double.  It is modelled by [float]: the
    three special values of IEEE arithmetic that the code can produce
    (not-a-number, plus and minus infinity) and the finite values, taken
    as exact reals.  Division by zero therefore behaves as in numpy (it
    yields an infinity or not-a-number and never raises), while rounding,
    overflow and the sign of zero are left out.  Where a statement of
    the specification turns on rounding, module [Binary64] at the end
    evaluates the same method on IEEE doubles.

    Tables.  A [DataFrame] is an index of dates together with named
    columns of cells, one cell per index entry.  Dates are proleptic
    Gregorian ordinals ([datetime.date.toordinal]). *)

From Stdlib Require PrimFloat.
From Stdlib Require Import Reals Lra Psatz ZArith String Bool Lia.
From Stdlib Require Import List.
Import ListNotations.

Set Implicit Arguments.

(* ================================================================= *)
(** ** Cells: doubles with their special values *)

Inductive float : Type :=
| NaN
| PInf
| NInf
| Fin (x : R).

Definition is_nan (a : float) : bool :=
  match a with NaN => true | _ => false end.

Definition is_fin (a : float) : bool :=
  match a with Fin _ => true | _ => false end.

(** The sign of a real, as a three-way comparison with zero. *)
Definition Rsign (x : R) : comparison :=
  if Rlt_dec x 0%R then Lt else if Rlt_dec 0%R x then Gt else Eq.

Definition fopp (a : float) : float :=
  match a with
  | NaN => NaN
  | PInf => NInf
  | NInf => PInf
  | Fin x => Fin (- x)
  end.

Definition fadd (a b : float) : float :=
  match a, b with
  | NaN, _ | _, NaN => NaN
  | PInf, NInf | NInf, PInf => NaN
  | PInf, _ | _, PInf => PInf
  | NInf, _ | _, NInf => NInf
  | Fin x, Fin y => Fin (x + y)
  end.

Definition fsub (a b : float) : float := fadd a (fopp b).

Definition fmul (a b : float) : float :=
  match a, b with
  | NaN, _ | _, NaN => NaN
  | Fin x, Fin y => Fin (x * y)
  | Fin x, PInf | PInf, Fin x =>
      match Rsign x with Lt => NInf | Eq => NaN | Gt => PInf end
  | Fin x, NInf | NInf, Fin x =>
      match Rsign x with Lt => PInf | Eq => NaN | Gt => NInf end
  | PInf, PInf | NInf, NInf => PInf
  | PInf, NInf | NInf, PInf => NInf
  end.

(** numpy division: a zero divisor gives an infinity of the sign of the
    dividend, or not-a-number for [0 / 0]; nothing is raised. *)
Definition fdiv (a b : float) : float :=
  match a, b with
  | NaN, _ | _, NaN => NaN
  | Fin x, Fin y =>
      if Req_dec_T y 0
      then match Rsign x with Lt => NInf | Eq => NaN | Gt => PInf end
      else Fin (x / y)
  | Fin _, PInf | Fin _, NInf => Fin 0
  | PInf, Fin y => if Rlt_dec y 0 then NInf else PInf
  | NInf, Fin y => if Rlt_dec y 0 then PInf else NInf
  | PInf, PInf | PInf, NInf | NInf, PInf | NInf, NInf => NaN
  end.

Definition fsqrt (a : float) : float :=
  match a with
  | NaN | NInf => NaN
  | PInf => PInf
  | Fin x => if Rlt_dec x 0 then NaN else Fin (sqrt x)
  end.

(** [<=] on cells; every comparison with not-a-number is false. *)
Definition fle (a b : float) : Prop :=
  match a, b with
  | NaN, _ | _, NaN => False
  | NInf, _ | _, PInf => True
  | Fin x, Fin y => (x <= y)%R
  | _, _ => False
  end.

(** [max] and [min] of two cells as pandas reduces them: a missing cell
    is skipped. *)
Definition fmax (a b : float) : float :=
  match a, b with
  | NaN, c | c, NaN => c
  | PInf, _ | _, PInf => PInf
  | NInf, c | c, NInf => c
  | Fin x, Fin y => Fin (Rmax x y)
  end.

Definition fmin (a b : float) : float :=
  match a, b with
  | NaN, c | c, NaN => c
  | NInf, _ | _, NInf => NInf
  | PInf, c | c, PInf => c
  | Fin x, Fin y => Fin (Rmin x y)
  end.

(* ================================================================= *)
(** ** Tables *)

Definition Date := Z.
Abbreviation Column := (string * list float)%type.

Record DataFrame : Type := mkDataFrame {
  index : list Date;
  data : list Column
}.

Definition columns (df : DataFrame) : list string := map fst (data df).
Definition nrows (df : DataFrame) : nat := length (index df).

(** Every column has one cell per index entry. *)
Definition wf (df : DataFrame) : Prop :=
  Forall (fun c : Column => length (snd c) = nrows df) (data df).

(** Cell [i] of a column; reading out of range gives a missing cell. *)
Definition cell (i : nat) (c : list float) : float := nth i c NaN.

Definition row_at (i : nat) (df : DataFrame) : list float :=
  map (fun c : Column => cell i (snd c)) (data df).

Definition rows (df : DataFrame) : list (list float) :=
  map (fun i => row_at i df) (seq 0 (nrows df)).

(** Boolean indexing of a list by a mask. *)
Fixpoint keep {A : Type} (mask : list bool) (l : list A) : list A :=
  match mask, l with
  | b :: m, x :: t => if b then x :: keep m t else keep m t
  | _, _ => []
  end.

Definition select_rows (mask : list bool) (df : DataFrame) : DataFrame :=
  mkDataFrame (keep mask (index df))
              (map (fun c : Column => (fst c, keep mask (snd c))) (data df)).

(** [DataFrame.dropna()]: drop the rows holding a missing cell. *)
Definition dropna (df : DataFrame) : DataFrame :=
  select_rows (map (fun r => negb (existsb is_nan r)) (rows df)) df.

(** [DataFrame.dropna(how='all')]: drop the rows whose cells are all missing. *)
Definition dropna_all (df : DataFrame) : DataFrame :=
  select_rows (map (fun r => negb (forallb is_nan r)) (rows df)) df.

(** [Series.shift(1)]. *)
Definition shift1 (c : list float) : list float :=
  match c with
  | [] => []
  | _ :: _ => NaN :: removelast c
  end.

(** [Series.ffill()]: carry the last present cell over missing ones. *)
Fixpoint ffill_from (last : float) (c : list float) : list float :=
  match c with
  | [] => []
  | x :: t => let v := if is_nan x then last else x in v :: ffill_from v t
  end.

Definition ffill (c : list float) : list float := ffill_from NaN c.

Fixpoint map2 {A B C : Type} (f : A -> B -> C) (l : list A) (m : list B) : list C :=
  match l, m with
  | x :: l', y :: m' => f x y :: map2 f l' m'
  | _, _ => []
  end.

(** [Series.pct_change()], which pandas computes as
    [data / data.shift(1) - 1].  [pad] is the library's [fill_method]:
    older pandas forward-fills the column first, newer pandas does not. *)
Definition pct_change_col (pad : bool) (c : list float) : list float :=
  let d := if pad then ffill c else c in
  map2 (fun x p => fsub (fdiv x p) (Fin 1)) d (shift1 d).

Definition pct_change (pad : bool) (df : DataFrame) : DataFrame :=
  mkDataFrame (index df)
              (map (fun c : Column => (fst c, pct_change_col pad (snd c))) (data df)).

(* ================================================================= *)
(** ** Exceptions *)

Inductive exn : Type :=
| ValueError (msg : string)
| ZeroDivisionError
| IndexError.

Inductive result (A : Type) : Type :=
| Ok (a : A)
| Raise (e : exn).

Arguments Ok {A} a.
Arguments Raise {A} e.

Definition bind {A B : Type} (m : result A) (k : A -> result B) : result B :=
  match m with
  | Ok a => k a
  | Raise e => Raise e
  end.

Notation "x <- m ;; k" := (bind m (fun x => k))
  (at level 61, m at next level, right associativity).

(** A Python [dict] with string keys, in insertion order.  Assigning to
    a key that is present replaces its value in place. *)
Fixpoint dict_set {V : Type} (d : list (string * V)) (k : string) (v : V)
  : list (string * V) :=
  match d with
  | [] => [(k, v)]
  | (k', v') :: t =>
      if String.eqb k' k then (k', v) :: t else (k', v') :: dict_set t k v
  end.

Fixpoint dict_get {V : Type} (d : list (string * V)) (k : string) : option V :=
  match d with
  | [] => None
  | (k', v) :: t => if String.eqb k' k then Some v else dict_get t k
  end.


(** [df.iloc[-1]]: the last row, labelled by the columns. *)
Definition iloc_last (df : DataFrame) : result (list (string * float)) :=
  match nrows df with
  | O => Raise IndexError
  | S n => Ok (map (fun c : Column => (fst c, cell n (snd c))) (data df))
  end.

(* ================================================================= *)
(** ** [src/factors.py] *)

Module Factors.

(** A [pd.Series] travelling on its own: its dates and its cells. *)
Record Series : Type := mkSeries {
  sindex : list Date;
  svalues : list float
}.

(** What [yf.download] hands back: the call raises, or it returns a
    table whose column labels have one level or two (field, ticker).
    A table of market data has one row per trading day: its dates are
    taken to be distinct. *)
Inductive Labels : Type :=
| Flat (names : list string)
| Multi (names : list (string * string)).

Inductive Download : Type :=
| DownloadRaises
| DownloadFrame (idx : list Date) (labels : Labels) (cols : list (list float)).

(** The collaborators of the loader.
    - [str_hash secret s] is the builtin [hash] of the string [s] in an
      interpreter whose string-hash secret is [secret];
    - [normal seed loc scale n] is what [np.random.normal(loc, scale, n)]
      draws right after [np.random.seed(seed)];
    - [yf_download ticker start stop] is the market-data fetch;
    - [reindex_ffill rate dates] is [rate.reindex(dates, method='ffill')],
      which raises on an index it cannot search. *)
Record Platform : Type := mkPlatform {
  str_hash : Z -> string -> Z;
  normal : Z -> R -> R -> nat -> list R;
  YFINANCE_AVAILABLE : bool;
  yf_download : string -> Date -> Date -> Download;
  reindex_ffill : Series -> list Date -> result (list float)
}.

Record FactorDataLoader : Type := mkLoader {
  start_date : Date;
  end_date : Date;
  currency_pair : string;
  usd_eur_rate : option Series
}.

Section Loader.

Variable P : Platform.
(** The string-hash secret of the running interpreter. *)
Variable hash_secret : Z.

Definition labels_of (l : Labels) : list string :=
  match l with
  | Flat ns => ns
  | Multi ps => map fst ps
  end.

(** [FactorDataLoader._fetch_data]: [None] when the library is absent,
    when the download raises and when the table is empty. *)
Definition _fetch_data (self : FactorDataLoader) (ticker : string)
  : option DataFrame :=
  if negb (YFINANCE_AVAILABLE P) then None
  else match yf_download P ticker (start_date self) (end_date self) with
       | DownloadRaises => None
       | DownloadFrame idx labels cols =>
           if (Nat.eqb (length idx) 0 || Nat.eqb (length cols) 0)%bool then None
           else Some (mkDataFrame idx (combine (labels_of labels) cols))
       end.

(** [data[label]], the first column of that name. *)
Definition getitem (df : DataFrame) (label : string) : option Series :=
  option_map (mkSeries (index df)) (dict_get (data df) label).

Definition empty (df : DataFrame) : bool :=
  (Nat.eqb (nrows df) 0 || Nat.eqb (length (data df)) 0)%bool.

(** [FactorDataLoader._load_currency_conversion]; the loader keeps the
    inverted rate when the fetch succeeds and is left as it was otherwise. *)
Definition _load_currency_conversion (self : FactorDataLoader)
  : bool * FactorDataLoader :=
  match _fetch_data self (currency_pair self) with
  | Some currency_data =>
      match getitem currency_data "Close" with
      | Some close =>
          (true, mkLoader (start_date self) (end_date self) (currency_pair self)
                   (Some (mkSeries (sindex close)
                                   (map (fdiv (Fin 1)) (svalues close)))))
      | None => (false, self)
      end
  | None => (false, self)
  end.

(** [FactorDataLoader._convert_usd_to_eur]. *)
Definition _convert_usd_to_eur (self : FactorDataLoader) (usd_prices : Series)
  : result Series :=
  match usd_eur_rate self with
  | Some rate =>
      aligned_rate <- reindex_ffill P rate (sindex usd_prices) ;;
      Ok (mkSeries (sindex usd_prices) (map2 fmul (svalues usd_prices) aligned_rate))
  | None =>
      Ok (mkSeries (sindex usd_prices)
                   (map (fun x => fmul x (Fin 0.91)) (svalues usd_prices)))
  end.

(** [pd.bdate_range]: the days from [start] to [stop] that fall on
    Monday to Friday. *)
Definition weekday (d : Date) : Z := ((d + 6) mod 7)%Z.

Definition bdate_range (start stop : Date) : list Date :=
  filter (fun d => (weekday d <? 5)%Z)
         (map (fun k => (start + Z.of_nat k)%Z)
              (seq 0 (Z.to_nat (stop - start + 1)))).

(** [np.cumsum]. *)
Fixpoint cumsum_from (acc : R) (l : list R) : list R :=
  match l with
  | [] => []
  | x :: t => (acc + x)%R :: cumsum_from (acc + x)%R t
  end.

Definition cumsum (l : list R) : list R := cumsum_from 0%R l.

(** [FactorDataLoader._generate_mock_data]. *)
Definition _generate_mock_data (self : FactorDataLoader) (name : string) : Series :=
  let date_range := bdate_range (start_date self) (end_date self) in
  let n_days := length date_range in
  let seed := (str_hash P hash_secret name mod 2 ^ 32)%Z in
  let initial_price := 100%R in
  let drift := 0.0002%R in
  let volatility := 0.01%R in
  let returns := normal P seed drift volatility n_days in
  let price_series := map (fun s => Fin (initial_price * exp s)) (cumsum returns) in
  mkSeries date_range price_series.




End Loader.








(** [FactorDataLoader.get_returns]: [prices.pct_change().dropna()]. *)
Definition get_returns (pad : bool) (prices : DataFrame) : DataFrame :=
  dropna (pct_change pad prices).

End Factors.

(* ================================================================= *)
(** ** Reductions and window operations of pandas and numpy *)

(** Broadcasting a scalar operation over a table. *)
Definition map_frame (f : float -> float) (df : DataFrame) : DataFrame :=
  mkDataFrame (index df)
              (map (fun c : Column => (fst c, map f (snd c))) (data df)).

(** An operation between two tables with the same labels, cell by cell. *)
Definition map2_frame (f : float -> float -> float) (a b : DataFrame) : DataFrame :=
  mkDataFrame (index a)
              (map2 (fun ca cb : Column => (fst ca, map2 f (snd ca) (snd cb)))
                    (data a) (data b)).

(** A reduction of every column to one cell, labelled by the column. *)
Definition reduce (f : list float -> float) (df : DataFrame) : list (string * float) :=
  map (fun c : Column => (fst c, f (snd c))) (data df).

Definition fill (v : float) (x : float) : float := if is_nan x then v else x.

(** [np.cumprod]. *)
Fixpoint np_cumprod_from (acc : float) (l : list float) : list float :=
  match l with
  | [] => []
  | x :: t => fmul acc x :: np_cumprod_from (fmul acc x) t
  end.

Definition np_cumprod (l : list float) : list float :=
  match l with
  | [] => []
  | x :: t => x :: np_cumprod_from x t
  end.

(** [Series.cumprod()]: missing cells count as 1 in the running product
    and stay missing in the output. *)
Definition cumprod (c : list float) : list float :=
  map2 (fun x r => if is_nan x then NaN else r) c (np_cumprod (map (fill (Fin 1)) c)).

(** [Series.prod()] and [Series.sum()], missing cells skipped. *)
Definition prod (c : list float) : float :=
  fold_left fmul (map (fill (Fin 1)) c) (Fin 1).

Definition sum (c : list float) : float :=
  fold_left fadd (map (fill (Fin 0)) c) (Fin 0).

(** [Series.min()], missing cells skipped; missing when nothing is left. *)
Definition min (c : list float) : float := fold_left fmin c NaN.

(** What the window operations of pandas read in a cell: an infinite
    cell is replaced by a missing one before anything is aggregated. *)
Definition finite_or_missing (x : float) : float := if is_fin x then x else NaN.

(** [Series.expanding().max()]: the maximum of the finite cells seen so
    far, missing while there is none. *)
Fixpoint expanding_max_from (m : float) (c : list float) : list float :=
  match c with
  | [] => []
  | x :: t => fmax m (finite_or_missing x)
              :: expanding_max_from (fmax m (finite_or_missing x)) t
  end.

Definition expanding_max (c : list float) : list float := expanding_max_from NaN c.

(** The finite cells of a column as reals; [None] when a cell is not finite. *)
Fixpoint reals (c : list float) : option (list R) :=
  match c with
  | [] => Some []
  | Fin x :: t => option_map (cons x) (reals t)
  | _ :: _ => None
  end.

Definition Rsum (l : list R) : R := fold_right Rplus 0%R l.
Definition Rmean (l : list R) : R := (Rsum l / INR (length l))%R.
(** Deviations from the mean, and sums of products of deviations. *)
Definition dev (l : list R) : list R := map (fun x => (x - Rmean l)%R) l.
Definition dot (a b : list R) : R := Rsum (map2 Rmult a b).

(** [Series.std()]: the sample standard deviation ([ddof=1]) of the
    present cells; missing with fewer than two of them, or when a cell
    is infinite. *)
Definition std (c : list float) : float :=
  match reals (filter (fun x => negb (is_nan x)) c) with
  | None => NaN
  | Some xs =>
      if (length xs <=? 1)%nat then NaN
      else Fin (sqrt (dot (dev xs) (dev xs) / (INR (length xs) - 1)))
  end.

(** Pearson correlation of two columns as [DataFrame.corr()] computes
    each entry: over the rows where both cells are finite (a missing or
    infinite cell masks its row for that pair), and missing when the
    divisor is zero. *)
Definition both_present (p : float * float) : bool :=
  (is_fin (fst p) && is_fin (snd p))%bool.

Definition pearson (a b : list float) : float :=
  let obs := filter both_present (combine a b) in
  match reals (map fst obs), reals (map snd obs) with
  | Some xs, Some ys =>
      let divisor := sqrt (dot (dev xs) (dev xs) * dot (dev ys) (dev ys)) in
      if Req_dec_T divisor 0 then NaN
      else Fin (dot (dev xs) (dev ys) / divisor)
  | _, _ => NaN
  end.

(** A square table labelled by column names on both axes. *)
Record Matrix : Type := mkMatrix {
  labels : list string;
  entries : list (list float)
}.


(** [DataFrame.corr()]. *)
Definition corr (df : DataFrame) : Matrix :=
  mkMatrix (columns df)
           (map (fun a : Column => map (fun b : Column => pearson (snd a) (snd b)) (data df))
                (data df)).

(** [x ** e] of numpy for a real exponent [e]. *)
Definition is_integer (e : R) : bool :=
  if Req_dec_T e (IZR (Int_part e)) then true else false.

Definition fpow (a : float) (e : R) : float :=
  if Req_dec_T e 0 then Fin 1
  else match a with
       | NaN => NaN
       | PInf => if Rlt_dec 0 e then PInf else Fin 0
       | NInf =>
           if Rlt_dec 0 e
           then if (is_integer e && Z.odd (Int_part e))%bool then NInf else PInf
           else Fin 0
       | Fin b =>
           match Rsign b with
           | Gt => Fin (Rpower b e)
           | Eq => if Rlt_dec 0 e then Fin 0 else PInf
           | Lt => if is_integer e then Fin (powerRZ b (Int_part e)) else NaN
           end
       end.

(** The cells of the [w] rows ending at row [i], when there are that many. *)
Definition window_at (w i : nat) (c : list float) : option (list float) :=
  if (w <=? i + 1)%nat then Some (firstn w (skipn (i + 1 - w) c)) else None.

(** [Series.rolling(window=w).agg()] with the default [min_periods = w]:
    missing until [w] rows are available and whenever the window holds a
    missing cell, an infinite cell counting as missing.  pandas refuses
    a negative window. *)
Definition rolling_col (w : nat) (agg : list float -> float) (c : list float)
  : list float :=
  map (fun i => match window_at w i c with
                | Some win =>
                    if existsb (fun x => negb (is_fin x)) win then NaN else agg win
                | None => NaN
                end)
      (seq 0 (length c)).

Definition rolling (window : Z) (agg : list float -> float) (df : DataFrame)
  : result DataFrame :=
  if (window <? 0)%Z then Raise (ValueError "window must be an integer 0 or greater")
  else Ok (mkDataFrame (index df)
             (map (fun c : Column => (fst c, rolling_col (Z.to_nat window) agg (snd c)))
                  (data df))).

(** [Series.mean()], missing cells skipped. *)
Definition mean (c : list float) : float :=
  let present := filter (fun x => negb (is_nan x)) c in
  fdiv (fold_left fadd present (Fin 0)) (Fin (INR (length present))).

(** [df.iloc[0]]: the first row, labelled by the columns. *)
Definition iloc_first (df : DataFrame) : result (list (string * float)) :=
  match nrows df with
  | O => Raise IndexError
  | S _ => Ok (map (fun c : Column => (fst c, cell 0 (snd c))) (data df))
  end.



(* ================================================================= *)
(** ** Series and tables labelled by names *)

(** [s[label]], missing when the label is absent. *)
Definition lookup_label (s : list (string * float)) (label : string) : float :=
  match dict_get s label with
  | Some v => v
  | None => NaN
  end.

Definition labels_eqb (a b : list string) : bool :=
  if list_eq_dec string_dec a b then true else false.

(** Sorted insertion of a label, each label once. *)
Fixpoint insert_label (k : string) (l : list string) : list string :=
  match l with
  | [] => [k]
  | x :: t =>
      if String.ltb k x then k :: l
      else if String.eqb k x then l
      else x :: insert_label k t
  end.

(** The labels of the result of aligning several series: their common
    labels when they all carry the same, the sorted union otherwise. *)
Definition union_labels (ls : list (list string)) : list string :=
  match ls with
  | [] => []
  | i :: t =>
      if forallb (labels_eqb i) t then i
      else fold_left (fun acc l => fold_left (fun a k => insert_label k a) l acc) ls []
  end.

(** The cells of a series on the labels [idx]: its own cells when these
    are its labels, a lookup label by label otherwise. *)
Definition align (idx : list string) (s : list (string * float)) : list float :=
  if labels_eqb (map fst s) idx then map snd s else map (lookup_label s) idx.

(** An arithmetic operation between two labelled series: pandas aligns
    them on their labels first. *)
Definition series_binop (f : float -> float -> float)
           (a b : list (string * float)) : list (string * float) :=
  let idx := union_labels [map fst a; map fst b] in
  combine idx (map2 f (align idx a) (align idx b)).

Definition series_map (f : float -> float) (a : list (string * float))
  : list (string * float) :=
  map (fun kv : string * float => (fst kv, f (snd kv))) a.

(** A table whose rows are labelled by names. *)
Record LabelFrame : Type := mkLabelFrame {
  row_labels : list string;
  fields : list (string * list float)
}.

(** [pd.DataFrame(dict_of_series)] for series labelled by names. *)
Definition frame_of_series (cols : list (string * list (string * float))) : LabelFrame :=
  let idx := union_labels (map (fun c => map fst (snd c)) cols) in
  mkLabelFrame idx
    (map (fun c : string * list (string * float) => (fst c, align idx (snd c))) cols).

(** [frame[name]]: one column of a labelled table, as a series. *)
Definition field (fr : LabelFrame) (name : string) : list (string * float) :=
  match dict_get (fields fr) name with
  | Some vals => combine (row_labels fr) vals
  | None => []
  end.

(** [a < b] on present cells. *)
Definition fltb (a b : float) : bool :=
  match a, b with
  | NaN, _ | _, NaN => false
  | PInf, _ | _, NInf => false
  | NInf, _ | _, PInf => true
  | Fin x, Fin y => if Rlt_dec x y then true else false
  end.

(** The first entry that no later entry beats under [better]. *)
Fixpoint arg_best (better : float -> float -> bool) (best : string * float)
         (l : list (string * float)) : string * float :=
  match l with
  | [] => best
  | kv :: t => if better (snd kv) (snd best) then arg_best better kv t
               else arg_best better best t
  end.

(** What a call may raise once label lookups are involved. *)
Inductive lookup_exn : Type :=
| Builtin (e : exn)
| KeyError (label : float).

Inductive outcome (A : Type) : Type :=
| Done (a : A)
| Fails (e : lookup_exn).

Arguments Done {A} a.
Arguments Fails {A} e.

(** [Series.idxmax()] and [Series.idxmin()] through [arg_best]: the
    first extreme entry wins.  pandas 3 searches the cells that are
    present; earlier versions search all cells, the missing ones
    replaced by the worst value.  An empty series makes numpy raise.
    When every cell is missing, pandas 3 raises, and earlier versions
    return the missing label, which the caller then fails to look up. *)
Definition idx_best (pandas3 : bool) (better : float -> float -> bool)
           (worst_value : float) (what : string)
           (s : list (string * float)) : outcome string :=
  match s with
  | [] => Fails (Builtin (ValueError ("attempt to get " ++ what ++ " of an empty sequence")))
  | _ :: _ =>
      if forallb (fun kv : string * float => is_nan (snd kv)) s
      then if pandas3 then Fails (Builtin (ValueError "Encountered all NA values"))
           else Fails (KeyError NaN)
      else
        let candidates :=
          if pandas3
          then filter (fun kv : string * float => negb (is_nan (snd kv))) s
          else map (fun kv : string * float => (fst kv, fill worst_value (snd kv))) s in
        match candidates with
        | kv :: t => Done (fst (arg_best better kv t))
        | [] => Fails (KeyError NaN)
        end
  end.

Definition idxmax (pandas3 : bool) (s : list (string * float)) : outcome string :=
  idx_best pandas3 (fun x best => fltb best x) NInf "argmax" s.

Definition idxmin (pandas3 : bool) (s : list (string * float)) : outcome string :=
  idx_best pandas3 (fun x best => fltb x best) PInf "argmin" s.

(* ================================================================= *)
(** ** [src/analysis.py] *)

Module Analysis.

Record PerformanceAnalyzer : Type := mkAnalyzer {
  returns : DataFrame;
  prices : DataFrame
}.

(** [PerformanceAnalyzer._returns_to_prices]. *)
Definition _returns_to_prices (returns : DataFrame) (initial_value : float)
  : DataFrame :=
  map_frame (fmul initial_value)
            (mkDataFrame (index returns)
               (map (fun c : Column => (fst c, cumprod (map (fadd (Fin 1)) (snd c))))
                    (data returns))).

(** [PerformanceAnalyzer.__init__]. *)
Definition init (returns : DataFrame) : PerformanceAnalyzer :=
  mkAnalyzer returns (_returns_to_prices returns (Fin 100)).

(** [PerformanceAnalyzer.calculate_cumulative_returns]. *)
Definition calculate_cumulative_returns (self : PerformanceAnalyzer) : DataFrame :=
  mkDataFrame (index (returns self))
    (map (fun c : Column =>
            (fst c, map (fun x => fsub x (Fin 1)) (cumprod (map (fadd (Fin 1)) (snd c)))))
         (data (returns self))).

(** The loop body of [calculate_drawdowns] for one column. *)
Definition drawdown (column : list float) : list float :=
  let running_max := expanding_max column in
  map2 (fun p m => fdiv (fsub p m) m) column running_max.

(** [PerformanceAnalyzer.calculate_drawdowns]. *)
Definition calculate_drawdowns (self : PerformanceAnalyzer) : DataFrame :=
  mkDataFrame (index (prices self))
    (map (fun c : Column => (fst c, drawdown (snd c))) (data (prices self))).

(** [PerformanceAnalyzer.calculate_max_drawdown]. *)
Definition calculate_max_drawdown (self : PerformanceAnalyzer)
  : list (string * float) :=
  reduce min (calculate_drawdowns self).


(** Python's true division of two numbers. *)
Definition py_div (a b : R) : result R :=
  if Req_dec_T b 0 then Raise ZeroDivisionError else Ok (a / b)%R.

(** [PerformanceAnalyzer.calculate_annualized_return]. *)
Definition calculate_annualized_return (self : PerformanceAnalyzer) (trading_days : Z)
  : result (list (string * float)) :=
  let total_days := nrows (returns self) in
  let total_return :=
    reduce (fun c => fsub (prod (map (fadd (Fin 1)) c)) (Fin 1)) (returns self) in
  years <- py_div (INR total_days) (IZR trading_days) ;;
  e <- py_div 1 years ;;
  Ok (map (fun kv : string * float =>
             (fst kv, fsub (fpow (fadd (Fin 1) (snd kv)) e) (Fin 1)))
          total_return).

(** [PerformanceAnalyzer.calculate_annualized_volatility]. *)
Definition calculate_annualized_volatility (self : PerformanceAnalyzer)
           (trading_days : Z) : list (string * float) :=
  reduce (fun c => fmul (std c) (fsqrt (Fin (IZR trading_days)))) (returns self).

(** [PerformanceAnalyzer.calculate_sharpe_ratio]. *)
Definition calculate_sharpe_ratio (self : PerformanceAnalyzer)
           (risk_free_rate : R) (trading_days : Z) : result (list (string * float)) :=
  ann_return <- calculate_annualized_return self trading_days ;;
  let ann_vol := calculate_annualized_volatility self trading_days in
  Ok (map2 (fun r v : string * float =>
              (fst r, fdiv (fsub (snd r) (Fin risk_free_rate)) (snd v)))
           ann_return ann_vol).

(** [PerformanceAnalyzer.get_rolling_metrics]. *)
Definition get_rolling_metrics (self : PerformanceAnalyzer) (window : Z)
           (metric : string) : result DataFrame :=
  if String.eqb metric "volatility" then
    vol <- rolling window std (returns self) ;;
    Ok (map_frame (fun x => fmul x (fsqrt (Fin 252))) vol)
  else if String.eqb metric "return" then
    ret <- rolling window mean (returns self) ;;
    Ok (map_frame (fun x => fmul x (Fin 252)) ret)
  else if String.eqb metric "sharpe" then
    ret <- rolling window mean (returns self) ;;
    let rolling_return := map_frame (fun x => fmul x (Fin 252)) ret in
    vol <- rolling window std (returns self) ;;
    let rolling_vol := map_frame (fun x => fmul x (fsqrt (Fin 252))) vol in
    Ok (map2_frame fdiv rolling_return rolling_vol)
  else Raise (ValueError ("Unknown metric: " ++ metric)).



End Analysis.

(* ================================================================= *)
(** ** [src/geography.py] *)

Module Geography.

Record GeographyAnalyzer : Type := mkGeography {
  prices : DataFrame;
  returns : DataFrame
}.

(** [GeographyAnalyzer.calculate_regional_contribution]. *)
Definition calculate_regional_contribution (self : GeographyAnalyzer)
  : result (list (string * float)) :=
  final_values <- iloc_last (prices self) ;;
  let total_value := sum (map snd final_values) in
  Ok (map (fun kv : string * float =>
             (fst kv, fmul (fdiv (snd kv) total_value) (Fin 100)))
          final_values).

(** [GeographyAnalyzer.calculate_regional_volatility]. *)
Definition calculate_regional_volatility (self : GeographyAnalyzer)
           (annualization_factor : Z) : list (string * float) :=
  reduce (fun c => fmul (std c) (fsqrt (Fin (IZR annualization_factor))))
         (returns self).

(** [np.dot] of two vectors. *)
Definition np_dot (a b : list float) : float :=
  fold_left fadd (map2 fmul a b) (Fin 0).

(** [(self.returns * weights).sum(axis=1)]: column [j] is scaled by
    [weights[j]] and every row is summed, missing cells skipped. *)
Definition weighted_row_sums (df : DataFrame) (weights : list float) : list float :=
  map (fun r => sum (map2 fmul r weights)) (rows df).

(** [GeographyAnalyzer.calculate_diversification_ratio]. *)
Definition calculate_diversification_ratio (self : GeographyAnalyzer) : result float :=
  let n := length (columns (returns self)) in
  w <- Analysis.py_div 1 (INR n) ;;
  let weights := repeat (Fin w) n in
  let individual_vols := map snd (reduce std (returns self)) in
  let portfolio_returns := weighted_row_sums (returns self) weights in
  let portfolio_vol := std portfolio_returns in
  let weighted_avg_vol := np_dot weights individual_vols in
  Ok (fdiv weighted_avg_vol portfolio_vol).

(** The diversification ratio in the words of the specification: the
    equal-weight average of the individual annualized volatilities over
    the annualized volatility of the equal-weighted portfolio return
    series, a year having 252 trading days. *)
Definition annualized (vol : float) : float := fmul vol (fsqrt (Fin 252)).

(** The return of the equal-weighted portfolio on a day: the mean of
    the returns of the assets on that day. *)
Definition equal_weighted_portfolio (df : DataFrame) : list float :=
  map (fun r => fdiv (fold_left fadd r (Fin 0)) (Fin (INR (length r)))) (rows df).

Definition portfolio_volatility (self : GeographyAnalyzer) : float :=
  std (equal_weighted_portfolio (returns self)).

Definition spec_diversification_ratio (self : GeographyAnalyzer) : float :=
  let vols := map snd (calculate_regional_volatility self 252) in
  let average := fdiv (fold_left fadd vols (Fin 0)) (Fin (INR (length vols))) in
  fdiv average (annualized (portfolio_volatility self)).

(** [GeographyAnalyzer.calculate_relative_performance]: the first row
    carries the labels of the columns, so every column is divided by
    its own first cell. *)
Definition calculate_relative_performance (self : GeographyAnalyzer)
  : result DataFrame :=
  first <- iloc_first (prices self) ;;
  Ok (mkDataFrame (index (prices self))
        (map2 (fun (c : Column) (base : string * float) =>
                 (fst c, map (fun p => fmul (fdiv p (snd base)) (Fin 100)) (snd c)))
              (data (prices self)) first)).

(** [GeographyAnalyzer.calculate_regional_correlations]. *)
Definition calculate_regional_correlations (self : GeographyAnalyzer) : Matrix :=
  corr (returns self).

(** [self.prices.iloc[-1] / self.prices.iloc[0] - 1], the expression
    that three methods share: the return of every region over the
    whole table. *)
Definition period_return (self : GeographyAnalyzer) : result (list (string * float)) :=
  last <- iloc_last (prices self) ;;
  first <- iloc_first (prices self) ;;
  Ok (series_map (fun x => fsub x (Fin 1)) (series_binop fdiv last first)).

Definition lift {A : Type} (m : result A) : outcome A :=
  match m with
  | Ok a => Done a
  | Raise e => Fails (Builtin e)
  end.

(** The dictionary that [get_best_worst_performers] returns. *)
Record Performers : Type := mkPerformers {
  best : string;
  best_return : float;
  worst : string;
  worst_return : float
}.

(** [GeographyAnalyzer.get_best_worst_performers]. *)
Definition get_best_worst_performers (pandas3 : bool) (self : GeographyAnalyzer)
  : outcome Performers :=
  match lift (period_return self) with
  | Fails e => Fails e
  | Done ratios =>
      let total_returns := series_map (fun x => fmul x (Fin 100)) ratios in
      match idxmax pandas3 total_returns with
      | Fails e => Fails e
      | Done best_region =>
          match idxmin pandas3 total_returns with
          | Fails e => Fails e
          | Done worst_region =>
              Done (mkPerformers best_region (lookup_label total_returns best_region)
                                 worst_region (lookup_label total_returns worst_region))
          end
      end
  end.

(** [GeographyAnalyzer.calculate_risk_adjusted_returns]. *)
Definition calculate_risk_adjusted_returns (self : GeographyAnalyzer)
           (risk_free_rate : R) (trading_days : Z) : result LabelFrame :=
  n_years <- Analysis.py_div (INR (nrows (returns self))) (IZR trading_days) ;;
  total_return <- period_return self ;;
  e <- Analysis.py_div 1 n_years ;;
  let annualized_return :=
    series_map (fun x => fsub (fpow (fadd (Fin 1) x) e) (Fin 1)) total_return in
  let annualized_vol :=
    reduce (fun c => fmul (std c) (fsqrt (Fin (IZR trading_days)))) (returns self) in
  let sharpe :=
    series_binop fdiv
      (series_map (fun x => fsub x (Fin risk_free_rate)) annualized_return)
      annualized_vol in
  Ok (frame_of_series
        [("Annualized Return"%string, annualized_return);
         ("Annualized Volatility"%string, annualized_vol);
         ("Sharpe Ratio"%string, sharpe);
         ("Return/Risk"%string, series_binop fdiv annualized_return annualized_vol)]).

(** [GeographyAnalyzer.analyze_drawdown_by_region]: the dictionary of
    the deepest drawdown of every region, as a series. *)
Definition analyze_drawdown_by_region (self : GeographyAnalyzer)
  : list (string * float) :=
  fold_left (fun max_drawdowns (c : Column) =>
               dict_set max_drawdowns (fst c) (min (Analysis.drawdown (snd c))))
            (data (prices self)) [].

(** [GeographyAnalyzer.get_geographic_summary]. *)
Definition get_geographic_summary (self : GeographyAnalyzer)
           (risk_free_rate : R) (trading_days : Z) : result LabelFrame :=
  ratios <- period_return self ;;
  let total_return := series_map (fun x => fmul x (Fin 100)) ratios in
  risk_adjusted <- calculate_risk_adjusted_returns self risk_free_rate trading_days ;;
  let max_dd := analyze_drawdown_by_region self in
  let percent := series_map (fun x => fmul x (Fin 100)) in
  Ok (frame_of_series
        [("Total Return (%)"%string, total_return);
         ("Annualized Return (%)"%string, percent (field risk_adjusted "Annualized Return"));
         ("Annualized Volatility (%)"%string,
          percent (field risk_adjusted "Annualized Volatility"));
         ("Sharpe Ratio"%string, field risk_adjusted "Sharpe Ratio");
         ("Max Drawdown (%)"%string, percent max_dd)]).

End Geography.

(* ================================================================= *)
(** ** The same arithmetic on IEEE doubles *)

(** Two methods of [src/geography.py] evaluated on binary64 numbers,
    every operation rounding to nearest as numpy does, for tables
    without missing cells. *)
Module Binary64.

Import PrimFloat.

(** [len(...)] as a double. *)
Fixpoint of_nat (n : nat) : float :=
  match n with
  | O => 0%float
  | S k => (of_nat k + 1)%float
  end.

(** [np.sum] of a vector of at most eight cells: numpy starts from the
    first cell and adds to it the sum of the others, taken from left to
    right. *)
Definition sum (l : list float) : float :=
  match l with
  | [] => 0%float
  | x :: t => (x + fold_left add t 0)%float
  end.

(** [Series.std()]: the mean, the squared deviations from it, their sum
    over [count - 1], and the square root. *)
Definition std (c : list float) : float :=
  let count := of_nat (length c) in
  let avg := (sum c / count)%float in
  let sqr := map (fun x => ((avg - x) * (avg - x))%float) c in
  sqrt (sum sqr / (count - 1))%float.

(** Row [i] of a list of columns of equal length. *)
Definition row (columns : list (list float)) (i : nat) : list float :=
  map (fun c => nth i c nan) columns.

Definition nrows (columns : list (list float)) : nat :=
  match columns with
  | [] => O
  | c :: _ => length c
  end.

(** [GeographyAnalyzer.calculate_regional_contribution], from the final
    row of the prices. *)
Definition calculate_regional_contribution (final_values : list float) : list float :=
  let total_value := sum final_values in
  map (fun v => (v / total_value * 100)%float) final_values.

(** [GeographyAnalyzer.calculate_diversification_ratio], from the
    columns of the returns. *)
Definition calculate_diversification_ratio (returns : list (list float)) : float :=
  let n := length returns in
  let weights := repeat (1 / of_nat n)%float n in
  let individual_vols := map std returns in
  let portfolio_returns :=
    map (fun i => sum (map2 mul (row returns i) weights)) (seq 0 (nrows returns)) in
  let portfolio_vol := std portfolio_returns in
  let weighted_avg_vol := sum (map2 mul weights individual_vols) in
  (weighted_avg_vol / portfolio_vol)%float.

(** The diversification ratio in the words of the specification, on
    doubles: the mean of the annualized volatilities over the annualized
    volatility of the series of row means. *)
Definition annualized (vol : float) : float := (vol * sqrt 252)%float.

Definition equal_weighted_portfolio (returns : list (list float)) : list float :=
  map (fun i => (sum (row returns i) / of_nat (length returns))%float)
      (seq 0 (nrows returns)).

Definition spec_diversification_ratio (returns : list (list float)) : float :=
  let vols := map (fun c => annualized (std c)) returns in
  let average := (sum vols / of_nat (length vols))%float in
  (average / annualized (std (equal_weighted_portfolio returns)))%float.

(** Three regions that end at the same price. *)
Definition equal_final_prices : list float := [1%float; 1%float; 1%float].

(** Two days of returns of two regions. *)
Definition two_day_returns : list (list float) :=
  [[(-0.0625)%float; 0.03125%float]; [0.0625%float; 0%float]].

Definition hundred : float := 100%float.

End Binary64.

Unset Implicit Arguments.

(* ================================================================= *)
(** ** Vocabulary of the statements, and sample tables *)

(** A price that a return can be taken from: finite and not zero. *)
Definition quoted (x : float) : Prop :=
  match x with
  | Fin r => r <> 0%R
  | _ => False
  end.

(** The change of each cell against the one before it. *)
Fixpoint changes (prev : float) (c : list float) : list float :=
  match c with
  | [] => []
  | x :: t => fsub (fdiv x prev) (Fin 1) :: changes x t
  end.

(** A table of quoted prices: every cell is a finite, nonzero number. *)
Definition all_quoted (df : DataFrame) : Prop :=
  Forall (fun c : Column => Forall quoted (snd c)) (data df).

Definition two_quotes : DataFrame :=
  mkDataFrame [737060%Z; 737061%Z; 737062%Z]
              [("Value"%string, [Fin 100; Fin 110; Fin 99])].

(** Two assets whose quotes start on different days: the second has no
    price on the first date. *)
Definition staggered : DataFrame :=
  mkDataFrame [737060%Z; 737061%Z; 737062%Z]
              [("US Market"%string, [Fin 100; Fin 101; Fin 102]);
               ("Europe"%string, [NaN; Fin 50; Fin 51])].

(** A column without missing cells. *)
Definition complete (c : list float) : Prop := Forall (fun x => is_nan x = false) c.

(** A table without missing cells: what [dropna] leaves. *)
Definition no_missing (df : DataFrame) : Prop :=
  Forall (fun c : Column => complete (snd c)) (data df).

(** The product of the growth factors [1 + r] of a column, taken in row
    order, and the total return it gives. *)
Definition growth_product (c : list float) : float :=
  fold_left fmul (map (fadd (Fin 1)) c) (Fin 1).

Definition total_return (c : list float) : float := fsub (growth_product c) (Fin 1).

(** The scenario of the specification: returns 0.01, -0.02, 0.03. *)
Definition three_returns : DataFrame :=
  mkDataFrame [737061%Z; 737062%Z; 737063%Z]
              [("Value"%string, [Fin 0.01; Fin (-0.02); Fin 0.03])].

Definition positive (x : float) : Prop :=
  match x with
  | Fin r => (0 < r)%R
  | _ => False
  end.

(** The scenario of the specification: prices 100, 110, 95, 120. *)
Definition scenario_prices : list float := [Fin 100; Fin 110; Fin 95; Fin 120].

Definition scenario_returns : DataFrame :=
  mkDataFrame [737061%Z; 737062%Z; 737063%Z; 737064%Z]
              [("Value"%string,
                [Fin 0; Fin 0.1; Fin (95 / 110 - 1); Fin (120 / 95 - 1)])].

(** One share of a finite nonzero total, in percent. *)
Definition share (t : R) (x : float) : float := fmul (fdiv x (Fin t)) (Fin 100).

Definition two_regions : Geography.GeographyAnalyzer :=
  Geography.mkGeography
    (mkDataFrame [737060%Z; 737061%Z]
                 [("US Market"%string, [Fin 90; Fin 100]);
                  ("Europe"%string, [Fin 280; Fin 300])])
    (mkDataFrame [737061%Z]
                 [("US Market"%string, [Fin (100 / 90 - 1)]);
                  ("Europe"%string, [Fin (300 / 280 - 1)])]).

(** A list of cells that are numbers or missing, never infinite. *)
Definition tame (vs : list float) : Prop :=
  Forall (fun v => v = NaN \/ exists s, v = Fin s) vs.

Definition two_assets : Geography.GeographyAnalyzer :=
  Geography.mkGeography
    (mkDataFrame [737060%Z; 737061%Z; 737062%Z]
                 [("US Market"%string, [Fin 100; Fin 101; Fin 104.03]);
                  ("Europe"%string, [Fin 50; Fin 51; Fin 52.02])])
    (mkDataFrame [737061%Z; 737062%Z]
                 [("US Market"%string, [Fin 0.01; Fin 0.03]);
                  ("Europe"%string, [Fin 0.02; Fin 0.02])]).

(** Two days without any move. *)
Definition flat_returns : DataFrame :=
  mkDataFrame [737061%Z; 737062%Z] [("Value"%string, [Fin 0; Fin 0])].



(** The exception that the last branch of [get_rolling_metrics] raises. *)
Definition InvalidMetric (metric : string) : exn :=
  ValueError ("Unknown metric: " ++ metric).

Definition known_metrics : list string :=
  ["volatility"%string; "return"%string; "sharpe"%string].



(** Row [i] of a list of columns. *)
Definition row_of (cs : list (list float)) (i : nat) : list float :=
  map (fun c => nth i c NaN) cs.

(** A platform without the market-data library, whose string hash adds
    the secret of the interpreter to the length of the string and whose
    generator repeats one value fixed by the seed. *)
Definition offline : Factors.Platform :=
  Factors.mkPlatform
    (fun secret s => (secret + Z.of_nat (String.length s))%Z)
    (fun seed loc scale n => repeat (loc + scale * IZR seed)%R n)
    false
    (fun _ _ _ => Factors.DownloadRaises)
    (fun _ _ => Raise (ValueError "index must be monotonic increasing or decreasing")).

(** Monday 1 January 2018 to Friday 5 January 2018. *)
Definition first_week : Factors.FactorDataLoader :=
  Factors.mkLoader 736695%Z 736699%Z "EURUSD=X" None.

(** The seed that [_generate_mock_data] hands to numpy. *)
Definition mock_seed (P : Factors.Platform) (hash_secret : Z) (name : string) : Z :=
  (Factors.str_hash P hash_secret name mod 2 ^ 32)%Z.

Definition mock_draws (P : Factors.Platform) (hash_secret : Z)
           (self : Factors.FactorDataLoader) (name : string) : list R :=
  Factors.normal P (mock_seed P hash_secret name) 0.0002 0.01
                 (length (Factors.bdate_range (Factors.start_date self)
                                              (Factors.end_date self))).

(** Dates in strictly increasing order. *)
Fixpoint increasing (l : list Date) : Prop :=
  match l with
  | [] => True
  | d :: t => Forall (Z.lt d) t /\ increasing t
  end.


(** A downloaded table that has as many labels as columns. *)
Definition consistent (d : Factors.Download) : Prop :=
  match d with
  | Factors.DownloadRaises => True
  | Factors.DownloadFrame _ labels cols =>
      length (Factors.labels_of labels) = length cols
  end.

(** A platform whose download answers every ticker with two days of
    closing prices. *)
Definition two_closes : Factors.Platform :=
  Factors.mkPlatform
    (fun secret s => (secret + Z.of_nat (String.length s))%Z)
    (fun seed loc scale n => repeat (loc + scale * IZR seed)%R n)
    true
    (fun _ _ _ => Factors.DownloadFrame [736695%Z; 736696%Z]
                                        (Factors.Flat ["Close"%string])
                                        [[Fin 100; Fin 110]])
    (fun rate dates => Ok (map (fun _ => Fin 0.9) dates)).

(** The return of a region over the whole table, in percent. *)
Definition percent_return (n : nat) (c : list float) : float :=
  fmul (fsub (fdiv (cell n c) (cell 0 c)) (Fin 1)) (Fin 100).

(** A table whose prices are all positive numbers. *)
Definition all_positive (df : DataFrame) : Prop :=
  Forall (fun c : Column => Forall positive (snd c)) (data df).

(** The prices of a table without its first row. *)
Definition drop_first_row (df : DataFrame) : DataFrame :=
  mkDataFrame (tl (index df)) (map (fun c : Column => (fst c, tl (snd c))) (data df)).

(** The length of a vector of reals, and the sample deviation of a
    list of reals. *)
Definition norm (v : list R) : R := sqrt (dot v v).

Definition sd (X : list R) : R :=
  sqrt (dot (dev X) (dev X) / (INR (length X) - 1)).

(** The equal-weighted portfolio of columns of reals, row by row. *)
Definition prow (w : R) (Xs : list (list R)) (m : nat) : list R :=
  map (fun i => Rsum (map (fun X => (nth i X 0 * w)%R) Xs)) (seq 0 m).

(** The number in a finite cell. *)
Definition real_of (x : float) : R :=
  match x with
  | Fin r => r
  | _ => 0%R
  end.

(** A table all of whose cells are finite numbers. *)
Definition all_finite (df : DataFrame) : Prop :=
  Forall (fun c : Column => Forall (fun x => is_fin x = true) (snd c)) (data df).

(** A return above -100%. *)
Definition above_minus_one (x : float) : Prop :=
  match x with
  | Fin r => (-1 < r)%R
  | _ => False
  end.





(* ================================================================= *)
(** ** Facts about cells *)

Lemma Rsign_pos (x : R) : (0 < x)%R -> Rsign x = Gt.
Proof.
  intros H. unfold Rsign.
  destruct (Rlt_dec x 0); [lra|]. destruct (Rlt_dec 0 x); [reflexivity|lra].
Qed.


Lemma Rsign_zero : Rsign 0 = Eq.
Proof.
  unfold Rsign. destruct (Rlt_dec 0 0); [lra|reflexivity].
Qed.

Lemma fdiv_fin (x y : R) : y <> 0%R -> fdiv (Fin x) (Fin y) = Fin (x / y).
Proof.
  intros H. simpl. destruct (Req_dec_T y 0); [contradiction|reflexivity].
Qed.


Lemma fdiv_zero_pos (x : R) : (0 < x)%R -> fdiv (Fin x) (Fin 0) = PInf.
Proof.
  intros H. simpl. destruct (Req_dec_T 0 0); [|lra]. now rewrite Rsign_pos.
Qed.

Lemma fdiv_zero_zero : fdiv (Fin 0) (Fin 0) = NaN.
Proof.
  simpl. destruct (Req_dec_T 0 0); [|lra]. now rewrite Rsign_zero.
Qed.

Lemma fdiv_nan_r (a : float) : fdiv a NaN = NaN.
Proof. now destruct a. Qed.

Lemma fsub_fin (x y : R) : fsub (Fin x) (Fin y) = Fin (x - y).
Proof. reflexivity. Qed.

Lemma fmul_one_l (a : float) : fmul (Fin 1) a = a.
Proof.
  destruct a; simpl; try reflexivity.
  - rewrite Rsign_pos by lra. reflexivity.
  - rewrite Rsign_pos by lra. reflexivity.
  - f_equal. lra.
Qed.

Lemma quoted_not_nan (x : float) : quoted x -> is_nan x = false.
Proof. destruct x; simpl; tauto. Qed.

Lemma pct_quoted (x p : float) :
  quoted x -> quoted p -> is_nan (fsub (fdiv x p) (Fin 1)) = false.
Proof.
  destruct x, p; simpl; try tauto. intros _ H.
  destruct (Req_dec_T x0 0); [contradiction|reflexivity].
Qed.

(* ================================================================= *)
(** ** Facts about tables *)

Lemma length_map2 {A B C : Type} (f : A -> B -> C) (l : list A) (m : list B) :
  length (map2 f l m) = Nat.min (length l) (length m).
Proof.
  revert m. induction l as [|x l IH]; intros [|y m]; simpl; auto.
Qed.

Lemma keep_all {A : Type} (l : list A) : keep (repeat true (length l)) l = l.
Proof. induction l; simpl; congruence. Qed.

Lemma columns_select_rows (mask : list bool) (df : DataFrame) :
  columns (select_rows mask df) = columns df.
Proof.
  unfold columns, select_rows. simpl. rewrite map_map. reflexivity.
Qed.

Lemma columns_pct_change (pad : bool) (df : DataFrame) :
  columns (pct_change pad df) = columns df.
Proof.
  unfold columns, pct_change. simpl. rewrite map_map. reflexivity.
Qed.

(** The labels survive [get_returns] on every table. *)
Lemma get_returns_columns (pad : bool) (prices : DataFrame) :
  columns (Factors.get_returns pad prices) = columns prices.
Proof.
  unfold Factors.get_returns, dropna.
  now rewrite columns_select_rows, columns_pct_change.
Qed.

Lemma ffill_from_present (last : float) (c : list float) :
  Forall (fun x => is_nan x = false) c -> ffill_from last c = c.
Proof.
  intros H. revert last. induction H as [|x c Hx _ IH]; intros last; simpl.
  - reflexivity.
  - rewrite Hx. now rewrite IH.
Qed.

Lemma map2_shift (x : float) (t : list float) :
  map2 (fun a p => fsub (fdiv a p) (Fin 1)) t (removelast (x :: t)) = changes x t.
Proof.
  revert x. induction t as [|y t IH]; intros x.
  - reflexivity.
  - change (removelast (x :: y :: t)) with (x :: removelast (y :: t)).
    cbn [map2 changes]. f_equal. apply IH.
Qed.

Lemma pct_change_col_quoted (pad : bool) (x : float) (t : list float) :
  Forall quoted (x :: t) ->
  pct_change_col pad (x :: t) = NaN :: changes x t.
Proof.
  intros H. unfold pct_change_col.
  assert (Hd : (if pad then ffill (x :: t) else x :: t) = x :: t).
  { destruct pad; [|reflexivity]. apply ffill_from_present.
    eapply Forall_impl; [|exact H]. apply quoted_not_nan. }
  rewrite Hd. cbv zeta. unfold shift1. cbn [map2].
  rewrite fdiv_nan_r. f_equal. apply map2_shift.
Qed.

Lemma changes_quoted (x : float) (t : list float) :
  Forall quoted (x :: t) -> Forall (fun y => is_nan y = false) (changes x t).
Proof.
  revert x. induction t as [|y t IH]; intros x H; simpl.
  - constructor.
  - inversion H as [|? ? Hx Ht]; subst. inversion Ht as [|? ? Hy _]; subst.
    constructor; [now apply pct_quoted | now apply IH].
Qed.

Lemma length_changes (x : float) (t : list float) : length (changes x t) = length t.
Proof. revert x. induction t; intros; simpl; auto. Qed.

Lemma map_const_true {A : Type} (g : A -> bool) (l : list A) :
  (forall i, In i l -> g i = true) -> map g l = repeat true (length l).
Proof.
  induction l as [|a l IH]; intros H; simpl.
  - reflexivity.
  - rewrite H by now left. f_equal. apply IH. intros i Hi. apply H. now right.
Qed.

(** Row 0 of the changes of a quoted table is missing in every column. *)
Lemma first_change_missing (pad : bool) (df : DataFrame) :
  wf df -> all_quoted df -> nrows df <> O -> data df <> [] ->
  existsb is_nan (row_at 0 (pct_change pad df)) = true.
Proof.
  intros Hwf Hq Hn Hd. unfold row_at, pct_change. simpl data.
  unfold wf in Hwf. unfold all_quoted in Hq.
  destruct (data df) as [|c cs]; [contradiction|].
  inversion Hwf as [|? ? Hc _]; subst. inversion Hq as [|? ? Hqc _]; subst.
  simpl. destruct (snd c) as [|x t]; [simpl in Hc; congruence|].
  now rewrite pct_change_col_quoted.
Qed.

(** Every later row of the changes of a quoted table is complete. *)
Lemma later_change_present (pad : bool) (df : DataFrame) (i : nat) :
  wf df -> all_quoted df -> (0 < i < nrows df)%nat ->
  existsb is_nan (row_at i (pct_change pad df)) = false.
Proof.
  intros Hwf Hq Hi. unfold row_at, pct_change. simpl data.
  unfold wf in Hwf. unfold all_quoted in Hq.
  induction (data df) as [|c cs IH]; [reflexivity|].
  inversion Hwf as [|? ? Hc Hcs]; subst. inversion Hq as [|? ? Hqc Hqcs]; subst.
  simpl. rewrite (IH Hcs Hqcs), orb_false_r.
  destruct (snd c) as [|x t]; [simpl in Hc; lia|].
  rewrite pct_change_col_quoted by assumption.
  destruct i as [|k]; [lia|]. unfold cell. simpl nth.
  pose proof (changes_quoted x t Hqc) as Hch.
  rewrite Forall_forall in Hch. apply Hch. apply nth_In.
  rewrite length_changes. simpl in Hc. lia.
Qed.

Lemma nrows_pct_change (pad : bool) (df : DataFrame) :
  nrows (pct_change pad df) = nrows df.
Proof. reflexivity. Qed.

(** On a quoted table [dropna] removes the first row of changes and
    nothing else. *)
Lemma get_returns_index (pad : bool) (prices : DataFrame) :
  wf prices -> all_quoted prices -> data prices <> [] ->
  index (Factors.get_returns pad prices) = tl (index prices).
Proof.
  intros Hwf Hq Hd. unfold Factors.get_returns, dropna, select_rows. simpl index.
  unfold rows. rewrite map_map, nrows_pct_change.
  destruct (index prices) as [|d idx] eqn:E.
  { unfold nrows. now rewrite E. }
  assert (Hn : nrows prices = S (length idx)) by (unfold nrows; now rewrite E).
  rewrite Hn. cbn [seq map]. rewrite first_change_missing; try assumption; [|lia].
  cbn [negb keep tl].
  rewrite (map_const_true (fun i => negb (existsb is_nan (row_at i (pct_change pad prices))))).
  - rewrite length_seq. apply keep_all.
  - intros i Hi. apply in_seq in Hi.
    rewrite later_change_present; auto. lia.
Qed.

(** C1, as the code has it: [get_returns] keeps the columns of every
    price table; on a price table with at least one row and one column
    whose cells are all finite nonzero numbers it yields exactly one row
    fewer. *)
Theorem get_returns_shape (pad : bool) (prices : DataFrame) :
  columns (Factors.get_returns pad prices) = columns prices
  /\ (wf prices -> all_quoted prices -> data prices <> [] -> nrows prices <> O ->
      Z.of_nat (nrows (Factors.get_returns pad prices))
      = (Z.of_nat (nrows prices) - 1)%Z).
Proof.
  split; [apply get_returns_columns|]. intros Hwf Hq Hd Hn.
  unfold nrows at 1. rewrite get_returns_index by assumption.
  unfold nrows in *. destruct (index prices); [contradiction|]. simpl length. lia.
Qed.

Lemma get_returns_shape_witness :
  columns (Factors.get_returns false two_quotes) = columns two_quotes
  /\ Z.of_nat (nrows (Factors.get_returns false two_quotes))
     = (Z.of_nat (nrows two_quotes) - 1)%Z.
Proof.
  destruct (get_returns_shape false two_quotes) as [Hc Hr].
  split; [exact Hc|]. apply Hr.
  - repeat constructor.
  - repeat constructor; simpl; lra.
  - discriminate.
  - discriminate.
Defined.

(** C1 as stated fails: a well-formed three-row price table from which
    [get_returns] keeps one row, whichever fill method pandas applies;
    and the table without rows, from which no row can be taken away. *)
Lemma get_returns_rows_counterexample :
  wf staggered
  /\ Z.of_nat (nrows (Factors.get_returns false staggered))
     <> (Z.of_nat (nrows staggered) - 1)%Z
  /\ Z.of_nat (nrows (Factors.get_returns true staggered))
     <> (Z.of_nat (nrows staggered) - 1)%Z
  /\ Z.of_nat (nrows (Factors.get_returns false (mkDataFrame [] [])))
     <> (Z.of_nat (nrows (mkDataFrame [] [])) - 1)%Z.
Proof.
  split; [repeat constructor|].
  assert (H : forall pad, nrows (Factors.get_returns pad staggered) = 1%nat).
  { intros pad. unfold Factors.get_returns, dropna, select_rows, nrows, rows.
    cbn [index pct_change staggered data map length seq row_at snd fst cell].
    assert (Hp : forall c, pct_change_col pad c
                           = pct_change_col false (if pad then ffill c else c)).
    { intros c. unfold pct_change_col. destruct pad; reflexivity. }
    rewrite !Hp. destruct pad; cbn [ffill ffill_from is_nan];
    unfold pct_change_col, shift1; cbn [map2 removelast nth];
    rewrite !fdiv_nan_r; rewrite ?fdiv_fin by lra; reflexivity. }
  rewrite !H. simpl. repeat split; lia.
Qed.

(* ================================================================= *)
(** ** Running products *)

Lemma fill_present (v x : float) : is_nan x = false -> fill v x = x.
Proof. unfold fill. now intros ->. Qed.

Lemma map_fill_complete (v : float) (c : list float) :
  complete c -> map (fill v) c = c.
Proof.
  induction 1 as [|x c Hx _ IH]; simpl; [reflexivity|].
  now rewrite fill_present, IH.
Qed.

Lemma growth_complete (c : list float) :
  complete c -> complete (map (fadd (Fin 1)) c).
Proof.
  induction 1 as [|x c Hx _ IH]; simpl; constructor; auto.
  destruct x; simpl in *; congruence.
Qed.

Lemma length_np_cumprod_from (acc : float) (l : list float) :
  length (np_cumprod_from acc l) = length l.
Proof. revert acc. induction l; intros; simpl; auto. Qed.

Lemma length_np_cumprod (l : list float) : length (np_cumprod l) = length l.
Proof. destruct l; simpl; [|rewrite length_np_cumprod_from]; reflexivity. Qed.

Lemma mask_complete (c l : list float) :
  complete c -> length l = length c ->
  map2 (fun x r => if is_nan x then NaN else r) c l = l.
Proof.
  intros H. revert l. induction H as [|x c Hx _ IH]; intros [|y l] Hl;
    simpl in *; try congruence.
  rewrite Hx. f_equal. apply IH. lia.
Qed.

Lemma cumprod_complete (c : list float) :
  complete c -> cumprod c = np_cumprod c.
Proof.
  intros H. unfold cumprod. rewrite map_fill_complete by assumption.
  apply mask_complete; [assumption|apply length_np_cumprod].
Qed.

(** The last cell of a running product is the whole product. *)
Lemma last_np_cumprod_from (acc : float) (l : list float) :
  nth (length l) (acc :: np_cumprod_from acc l) NaN = fold_left fmul l acc.
Proof.
  revert acc. induction l as [|x l IH]; intros acc; [reflexivity|].
  cbn [length np_cumprod_from fold_left]. rewrite <- IH. reflexivity.
Qed.

Lemma last_np_cumprod (x : float) (t : list float) :
  cell (length t) (np_cumprod (x :: t)) = fold_left fmul (x :: t) (Fin 1).
Proof.
  unfold cell. cbn [np_cumprod fold_left]. rewrite fmul_one_l.
  apply last_np_cumprod_from.
Qed.

Lemma cell_map (f : float -> float) (i : nat) (l : list float) :
  (i < length l)%nat -> cell i (map f l) = f (cell i l).
Proof.
  intros H. unfold cell. rewrite (nth_indep _ NaN (f NaN)) by now rewrite length_map.
  apply map_nth.
Qed.

Lemma cumulative_last_col (n : nat) (c : list float) :
  complete c -> length c = S n ->
  cell n (map (fun x => fsub x (Fin 1)) (cumprod (map (fadd (Fin 1)) c)))
  = total_return c.
Proof.
  intros Hc Hl. rewrite cumprod_complete by now apply growth_complete.
  rewrite cell_map by (rewrite length_np_cumprod, length_map; lia).
  unfold total_return, growth_product. f_equal.
  destruct c as [|x t]; [discriminate|]. cbn [map].
  injection Hl as Hl. rewrite <- Hl, <- (length_map (fadd (Fin 1)) t).
  apply last_np_cumprod.
Qed.

(** C5: on a non-empty return table (no missing cell, as [get_returns]
    leaves it) the last row of [calculate_cumulative_returns] is, for
    every asset, the product of [1 + r] over all rows minus 1. *)
Theorem cumulative_returns_last_row (rets : DataFrame) :
  wf rets -> no_missing rets -> nrows rets <> O ->
  iloc_last (Analysis.calculate_cumulative_returns (Analysis.init rets))
  = Ok (reduce total_return rets).
Proof.
  intros Hwf Hm Hn. unfold iloc_last, Analysis.calculate_cumulative_returns.
  cbn [Analysis.returns Analysis.init].
  change (nrows (mkDataFrame (index rets) ?d)) with (nrows rets).
  destruct (nrows rets) as [|n] eqn:E; [contradiction|].
  f_equal. cbn [data]. unfold reduce. rewrite map_map.
  unfold wf in Hwf. rewrite E in Hwf. unfold no_missing in Hm.
  induction (data rets) as [|c cs IH]; [reflexivity|].
  inversion Hwf; subst. inversion Hm; subst.
  cbn [map fst snd]. rewrite cumulative_last_col by assumption.
  f_equal. now apply IH.
Qed.

(* ================================================================= *)
(** ** What [dropna] leaves *)

Lemma length_keep {A B : Type} (mask : list bool) (l : list A) (m : list B) :
  length l = length m -> length (keep mask l) = length (keep mask m).
Proof.
  revert l m. induction mask as [|b mask IH]; intros [|x l] [|y m] H;
    simpl in *; try congruence.
  destruct b; simpl; auto.
Qed.

Lemma keep_complete (mask : list bool) (c : list float) :
  (forall i, (i < length c)%nat -> nth i mask false = true ->
             is_nan (nth i c NaN) = false) ->
  complete (keep mask c).
Proof.
  revert c. induction mask as [|b mask IH]; intros [|x c] H; try constructor.
  assert (Ht : complete (keep mask c)).
  { apply IH. intros i Hi Hm. apply (H (S i)); simpl; [lia|assumption]. }
  simpl. destruct b; [|exact Ht].
  constructor; [|exact Ht]. apply (H O); simpl; [lia|reflexivity].
Qed.

Lemma wf_select_rows (mask : list bool) (df : DataFrame) :
  wf df -> wf (select_rows mask df).
Proof.
  unfold wf, select_rows, nrows. cbn [index data]. intros H.
  apply Forall_map. eapply Forall_impl; [|exact H].
  intros c Hc. cbn [snd]. now apply length_keep.
Qed.

Lemma length_ffill_from (last : float) (c : list float) :
  length (ffill_from last c) = length c.
Proof. revert last. induction c; intros; simpl; auto. Qed.

Lemma length_shift1 (c : list float) : length (shift1 c) = length c.
Proof.
  destruct c as [|x c]; [reflexivity|]. unfold shift1.
  rewrite removelast_firstn_len. cbn [length Nat.pred].
  rewrite length_firstn. cbn [length]. lia.
Qed.

Lemma length_pct_change_col (pad : bool) (c : list float) :
  length (pct_change_col pad c) = length c.
Proof.
  unfold pct_change_col. cbv zeta. rewrite length_map2, length_shift1, Nat.min_id.
  destruct pad; [apply length_ffill_from | reflexivity].
Qed.

Lemma wf_pct_change (pad : bool) (df : DataFrame) : wf df -> wf (pct_change pad df).
Proof.
  unfold wf, pct_change, nrows. cbn [index data]. intros H.
  apply Forall_map. eapply Forall_impl; [|exact H].
  intros c Hc. cbn [snd]. now rewrite length_pct_change_col.
Qed.

Lemma dropna_no_missing (df : DataFrame) : wf df -> no_missing (dropna df).
Proof.
  intros Hwf. unfold no_missing, dropna, select_rows. cbn [data].
  apply Forall_map. apply Forall_forall. intros c Hc. cbn [snd].
  apply keep_complete. intros i Hi Hm.
  unfold wf in Hwf. rewrite Forall_forall in Hwf. rewrite (Hwf c Hc) in Hi.
  unfold rows in Hm. rewrite map_map in Hm.
  rewrite (nth_indep _ false
             ((fun x => negb (existsb is_nan (row_at x df))) O)) in Hm
    by now rewrite length_map, length_seq.
  rewrite (map_nth (fun x => negb (existsb is_nan (row_at x df)))) in Hm.
  rewrite seq_nth in Hm by assumption. cbn [Nat.add] in Hm.
  apply negb_true_iff in Hm.
  destruct (is_nan (nth i (snd c) NaN)) eqn:E; [|reflexivity].
  assert (Hex : existsb is_nan (row_at i df) = true).
  { apply existsb_exists. exists (cell i (snd c)). split; [|exact E].
    unfold row_at. exact (in_map (fun c : Column => cell i (snd c)) _ _ Hc). }
  congruence.
Qed.

(** The table that [get_returns] hands to the analyzers is well formed
    and has no missing cell. *)
Lemma get_returns_return_table (pad : bool) (prices : DataFrame) :
  wf prices ->
  wf (Factors.get_returns pad prices) /\ no_missing (Factors.get_returns pad prices).
Proof.
  intros H. unfold Factors.get_returns. split.
  - apply wf_select_rows. now apply wf_pct_change.
  - apply dropna_no_missing. now apply wf_pct_change.
Qed.

Lemma three_returns_total :
  total_return [Fin 0.01; Fin (-0.02); Fin 0.03] = Fin (1.01 * 0.98 * 1.03 - 1).
Proof.
  unfold total_return, growth_product. simpl. f_equal. lra.
Qed.

Lemma cumulative_returns_last_row_witness :
  iloc_last (Analysis.calculate_cumulative_returns (Analysis.init three_returns))
  = Ok [("Value"%string, Fin (1.01 * 0.98 * 1.03 - 1))]
  /\ iloc_last (Analysis.calculate_cumulative_returns
                  (Analysis.init (Factors.get_returns false two_quotes)))
     = Ok (reduce total_return (Factors.get_returns false two_quotes)).
Proof.
  split.
  - rewrite cumulative_returns_last_row.
    + unfold reduce, three_returns. cbn [data map fst snd].
      now rewrite three_returns_total.
    + repeat constructor.
    + repeat constructor.
    + discriminate.
  - assert (Hwf : wf two_quotes) by (repeat constructor).
    destruct (get_returns_return_table false two_quotes Hwf) as [Hw Hm].
    apply cumulative_returns_last_row; [exact Hw | exact Hm |].
    unfold nrows. rewrite get_returns_index.
    + discriminate.
    + exact Hwf.
    + repeat constructor; simpl; lra.
    + discriminate.
Defined.

(* ================================================================= *)
(** ** Drawdowns *)

Lemma cell_map2 (f : float -> float -> float) (i : nat) (a b : list float) :
  (i < length a)%nat -> length b = length a ->
  cell i (map2 f a b) = f (cell i a) (cell i b).
Proof.
  unfold cell. revert i b. induction a as [|x a IH]; intros i [|y b] Hi Hl;
    simpl in *; try lia.
  destruct i as [|i]; [reflexivity|]. apply IH; lia.
Qed.

Lemma length_expanding_max_from (m : float) (c : list float) :
  length (expanding_max_from m c) = length c.
Proof. revert m. induction c; intros; simpl; auto. Qed.

Lemma fmax_positive (m x : float) :
  m = NaN \/ positive m -> positive x ->
  positive (fmax m x) /\ fle x (fmax m x).
Proof.
  intros [-> | Hm] Hx.
  - destruct x; simpl in *; try tauto. split; lra.
  - destruct m, x; simpl in *; try tauto.
    unfold Rmax. destruct (Rle_dec x0 x); split; lra.
Qed.

Lemma finite_or_missing_positive (x : float) : positive x -> finite_or_missing x = x.
Proof. destruct x; cbn; tauto. Qed.

(** Over positive prices the running peak is a positive number that
    the price does not exceed. *)
Lemma running_peak (c : list float) :
  forall (m : float) (i : nat),
    m = NaN \/ positive m -> Forall positive c -> (i < length c)%nat ->
    positive (cell i (expanding_max_from m c))
    /\ fle (cell i c) (cell i (expanding_max_from m c)).
Proof.
  induction c as [|x c IH]; intros m i Hm Hc Hi; simpl in Hi; [lia|].
  inversion Hc as [|? ? Hx Hc']; subst.
  destruct (@fmax_positive m x Hm Hx) as [Hp Hle].
  cbn [expanding_max_from]. rewrite (finite_or_missing_positive x Hx).
  destruct i as [|i]; simpl.
  - unfold cell. simpl. auto.
  - apply (IH (fmax m x) i); auto. lia.
Qed.

Lemma drawdown_cell (p m : float) :
  positive p -> positive m -> fle p m ->
  is_fin (fdiv (fsub p m) m) = true
  /\ fle (fdiv (fsub p m) m) (Fin 0) /\ (p = m -> fdiv (fsub p m) m = Fin 0).
Proof.
  destruct p as [| | |p], m as [| | |m]; simpl; try tauto.
  intros Hp Hm Hle. destruct (Req_dec_T m 0) as [Hz|Hz]; [lra|].
  split; [reflexivity|]. split.
  - simpl. apply Rmult_le_reg_r with m; [assumption|].
    unfold Rdiv. rewrite Rmult_assoc, Rinv_l by assumption. lra.
  - intros H. injection H as ->. f_equal. unfold Rdiv. replace (m + - m)%R with 0%R by lra.
    lra.
Qed.

Lemma length_drawdown (c : list float) : length (Analysis.drawdown c) = length c.
Proof.
  unfold Analysis.drawdown. rewrite length_map2.
  unfold expanding_max. rewrite length_expanding_max_from. lia.
Qed.

(** Each cell of a drawdown series over positive prices is at most 0,
    and is 0 where the price sits on its running peak. *)
Lemma drawdown_cell_bounds (c : list float) (i : nat) :
  Forall positive c -> (i < length c)%nat ->
  is_fin (cell i (Analysis.drawdown c)) = true
  /\ fle (cell i (Analysis.drawdown c)) (Fin 0)
  /\ (cell i c = cell i (expanding_max c) -> cell i (Analysis.drawdown c) = Fin 0).
Proof.
  intros Hc Hi. unfold Analysis.drawdown.
  rewrite cell_map2 by (auto; apply length_expanding_max_from).
  destruct (@running_peak c NaN i (or_introl eq_refl) Hc Hi) as [Hm Hle].
  apply drawdown_cell; auto.
  assert (Hin : In (cell i c) c) by now apply nth_In.
  rewrite Forall_forall in Hc. now apply Hc.
Qed.

Lemma drawdown_finite (c : list float) :
  Forall positive c -> Forall (fun d => is_fin d = true) (Analysis.drawdown c).
Proof.
  intros Hc. apply Forall_forall. intros d Hd.
  destruct (In_nth _ _ NaN Hd) as [i [Hi <-]]. rewrite length_drawdown in Hi.
  now destruct (drawdown_cell_bounds c i Hc Hi) as [Hf _].
Qed.

(** [min] over finite cells is a member of the list below all members. *)
Lemma fmin_fin (a y : R) : fmin (Fin a) (Fin y) = Fin (Rmin a y).
Proof. reflexivity. Qed.

Lemma fold_fmin_fin (l : list float) :
  forall a : R,
    Forall (fun d => is_fin d = true) l ->
    exists m : R,
      fold_left fmin l (Fin a) = Fin m
      /\ (m = a \/ In (Fin m) l)
      /\ (m <= a)%R
      /\ (forall x, In (Fin x) l -> (m <= x)%R).
Proof.
  induction l as [|y l IH]; intros a Hl.
  - exists a. simpl. repeat split; auto; try lra. intros x [].
  - inversion Hl as [|? ? Hy Hl']; subst.
    destruct y as [| | |y]; try discriminate.
    cbn [fold_left]. rewrite fmin_fin.
    destruct (IH (Rmin a y) Hl') as [m [E [Hin [Hle Hlb]]]].
    exists m. split; [exact E|].
    pose proof (Rmin_l a y). pose proof (Rmin_r a y).
    split; [|split].
    + destruct Hin as [-> | Hin]; [|right; now right].
      unfold Rmin. destruct (Rle_dec a y); [now left | right; now left].
    + lra.
    + intros x [Hx | Hx]; [injection Hx as <-; lra | now apply Hlb].
Qed.

Lemma min_finite (l : list float) :
  Forall (fun d => is_fin d = true) l -> l <> [] ->
  In (min l) l /\ (forall x, In x l -> fle (min l) x).
Proof.
  intros Hl Hne. unfold min. destruct l as [|y l]; [contradiction|].
  inversion Hl as [|? ? Hy Hl']; subst.
  destruct y as [| | |y]; try discriminate. cbn [fold_left fmin].
  destruct (fold_fmin_fin l y Hl') as [m [E [Hin [Hle Hlb]]]]. rewrite E. split.
  - destruct Hin as [-> | Hin]; [now left | now right].
  - intros x [<- | Hx]; [exact Hle|].
    rewrite Forall_forall in Hl'. specialize (Hl' x Hx).
    destruct x as [| | |x]; try discriminate. simpl. now apply Hlb.
Qed.

(** C6: for every column of positive prices held by the analyzer, the
    drawdown series that [calculate_drawdowns] stores under the same
    label is at most 0 in every row and exactly 0 in the rows where the
    price equals its running maximum; [calculate_max_drawdown] reports
    under that label a cell of the series that no cell of it is below. *)
Theorem drawdowns_nonpositive (self : Analysis.PerformanceAnalyzer) (c : Column) :
  In c (data (Analysis.prices self)) -> Forall positive (snd c) ->
  let dd := Analysis.drawdown (snd c) in
  In (fst c, dd) (data (Analysis.calculate_drawdowns self))
  /\ length dd = length (snd c)
  /\ (forall i, (i < length (snd c))%nat ->
        is_fin (cell i dd) = true
        /\ fle (cell i dd) (Fin 0)
        /\ (cell i (snd c) = cell i (expanding_max (snd c)) -> cell i dd = Fin 0))
  /\ In (fst c, min dd) (Analysis.calculate_max_drawdown self)
  /\ (snd c <> [] -> In (min dd) dd /\ forall d, In d dd -> fle (min dd) d).
Proof.
  intros Hin Hpos dd.
  assert (Hdd : In (fst c, dd) (data (Analysis.calculate_drawdowns self))).
  { unfold Analysis.calculate_drawdowns. cbn [data].
    apply (in_map (fun c : Column => (fst c, Analysis.drawdown (snd c)))) in Hin.
    exact Hin. }
  split; [exact Hdd|]. split; [apply length_drawdown|]. split.
  { intros i Hi. now apply drawdown_cell_bounds. }
  split.
  { unfold Analysis.calculate_max_drawdown, reduce.
    apply (in_map (fun c : Column => (fst c, min (snd c)))) in Hdd. exact Hdd. }
  intros Hne. apply min_finite.
  - now apply drawdown_finite.
  - intros E. apply Hne. apply length_zero_iff_nil.
    rewrite <- length_drawdown. fold dd. now rewrite E.
Qed.

(** Deciding the comparisons of concrete reals that the cell operations
    branch on. *)
Ltac Rdecide :=
  repeat match goal with
         | |- context [Rmax ?a ?b] =>
             first [rewrite (Rmax_left a b) by lra | rewrite (Rmax_right a b) by lra]
         | |- context [Rmin ?a ?b] =>
             first [rewrite (Rmin_left a b) by lra | rewrite (Rmin_right a b) by lra]
         | |- context [Rlt_dec ?a ?b] => destruct (Rlt_dec a b); [try lra | try lra]
         | |- context [Req_dec_T ?a ?b] => destruct (Req_dec_T a b); [try lra | try lra]
         end.

Lemma scenario_max_drawdown :
  min (Analysis.drawdown scenario_prices) = Fin ((95 - 110) / 110).
Proof.
  unfold min, Analysis.drawdown, expanding_max, scenario_prices.
  cbn [expanding_max_from finite_or_missing is_fin fmax map2 fsub fadd fopp]. Rdecide.
  cbn [map2 fdiv fold_left fmin]. Rdecide.
  cbn [fold_left fmin]. Rdecide. reflexivity.
Qed.

Lemma scenario_prices_of_returns :
  data (Analysis.prices (Analysis.init scenario_returns))
  = [("Value"%string, scenario_prices)].
Proof.
  unfold Analysis.init, Analysis._returns_to_prices, map_frame, scenario_returns,
    scenario_prices, cumprod, fill.
  cbn. repeat f_equal; lra.
Qed.

Lemma drawdowns_nonpositive_witness :
  let self := Analysis.init scenario_returns in
  let dd := Analysis.drawdown scenario_prices in
  In ("Value"%string, dd) (data (Analysis.calculate_drawdowns self))
  /\ (forall i, (i < 4)%nat ->
        fle (cell i dd) (Fin 0)
        /\ (cell i scenario_prices = cell i (expanding_max scenario_prices) ->
            cell i dd = Fin 0))
  /\ In ("Value"%string, Fin ((95 - 110) / 110)) (Analysis.calculate_max_drawdown self)
  /\ (forall d, In d dd -> fle (Fin ((95 - 110) / 110)) d).
Proof.
  intros self dd.
  assert (Hin : In ("Value"%string, scenario_prices) (data (Analysis.prices self))).
  { unfold self. rewrite scenario_prices_of_returns. now left. }
  assert (Hpos : Forall positive scenario_prices).
  { unfold scenario_prices. repeat constructor; simpl; lra. }
  destruct (drawdowns_nonpositive self ("Value"%string, scenario_prices) Hin Hpos)
    as [H1 [_ [H3 [H4 H5]]]].
  cbn [fst snd] in *.
  assert (Hne : scenario_prices <> []) by discriminate.
  destruct (H5 Hne) as [_ H6]. clear H5.
  rewrite scenario_max_drawdown in H4, H6.
  split; [exact H1|]. split; [|split; [exact H4 | exact H6]].
  intros i Hi. destruct (H3 i Hi) as [_ [Hle Hz]]. split; assumption.
Defined.

(* ================================================================= *)
(** ** Regional contribution *)

Lemma fadd_not_fin (a b : float) : is_fin a = false -> is_fin (fadd a b) = false.
Proof. destruct a, b; simpl; congruence. Qed.

Lemma fold_fadd_not_fin (l : list float) (a : float) :
  is_fin a = false -> is_fin (fold_left fadd l a) = false.
Proof.
  revert a. induction l as [|x l IH]; intros a Ha; simpl; [assumption|].
  apply IH. now apply fadd_not_fin.
Qed.

Lemma share_fin (t x : R) : t <> 0%R -> share t (Fin x) = Fin (x / t * 100).
Proof. intros H. unfold share. now rewrite fdiv_fin. Qed.

(** When the present cells add up to a finite total, their shares add
    up to the share of the total. *)
Lemma sum_shares (t : R) (cells : list float) :
  t <> 0%R ->
  forall a s : R,
    fold_left fadd (map (fill (Fin 0)) cells) (Fin a) = Fin s ->
    fold_left fadd (map (fill (Fin 0)) (map (share t) cells)) (Fin (a / t * 100))
    = Fin (s / t * 100).
Proof.
  intros Ht. induction cells as [|x cells IH]; intros a s H.
  - simpl in *. now injection H as ->.
  - cbn [map fold_left] in *. destruct x as [| | |x].
    + cbn [fill is_nan share fdiv fmul fadd] in *.
      replace (a / t * 100 + 0)%R with ((a + 0) / t * 100)%R by (field; exact Ht).
      now apply IH.
    + exfalso. cbn [fill is_nan fadd] in H.
      pose proof (@fold_fadd_not_fin (map (fill (Fin 0)) cells) PInf eq_refl) as E.
      rewrite H in E. discriminate.
    + exfalso. cbn [fill is_nan fadd] in H.
      pose proof (@fold_fadd_not_fin (map (fill (Fin 0)) cells) NInf eq_refl) as E.
      rewrite H in E. discriminate.
    + rewrite share_fin by assumption. cbn [fill is_nan fadd] in *.
      replace (a / t * 100 + x / t * 100)%R with ((a + x) / t * 100)%R
        by (field; exact Ht).
      now apply IH.
Qed.

(** C10, in exact arithmetic: when the cells of the final row add up
    to a nonzero number, [calculate_regional_contribution] gives every
    asset its final price over that total times 100, and these
    percentages add up to 100. *)
Theorem regional_contribution_sums_to_100
        (self : Geography.GeographyAnalyzer) (final : list (string * float)) (t : R) :
  iloc_last (Geography.prices self) = Ok final ->
  sum (map snd final) = Fin t -> t <> 0%R ->
  let contributions :=
    map (fun kv : string * float => (fst kv, fmul (fdiv (snd kv) (Fin t)) (Fin 100)))
        final in
  Geography.calculate_regional_contribution self = Ok contributions
  /\ (forall name x, In (name, Fin x) final ->
        In (name, Fin (x / t * 100)) contributions)
  /\ sum (map snd contributions) = Fin 100.
Proof.
  intros Hlast Hsum Ht contributions. split; [|split].
  - unfold Geography.calculate_regional_contribution. rewrite Hlast. cbn [bind].
    now rewrite Hsum.
  - intros name x Hin.
    apply (in_map (fun kv : string * float =>
                     (fst kv, fmul (fdiv (snd kv) (Fin t)) (Fin 100)))) in Hin.
    cbn [fst snd] in Hin. fold (share t (Fin x)) in Hin.
    now rewrite share_fin in Hin.
  - assert (Hc : map snd contributions = map (share t) (map snd final)).
    { unfold contributions. rewrite !map_map. reflexivity. }
    rewrite Hc. unfold sum in *.
    pose proof (@sum_shares t (map snd final) Ht 0%R t Hsum) as E.
    replace (0 / t * 100)%R with 0%R in E by (field; exact Ht).
    rewrite E. f_equal. field. exact Ht.
Qed.

Lemma regional_contribution_sums_to_100_witness :
  Geography.calculate_regional_contribution two_regions
  = Ok [("US Market"%string, fmul (fdiv (Fin 100) (Fin 400)) (Fin 100));
        ("Europe"%string, fmul (fdiv (Fin 300) (Fin 400)) (Fin 100))]
  /\ sum [fmul (fdiv (Fin 100) (Fin 400)) (Fin 100);
          fmul (fdiv (Fin 300) (Fin 400)) (Fin 100)] = Fin 100.
Proof.
  assert (Hsum : sum (map snd [("US Market"%string, Fin 100); ("Europe"%string, Fin 300)])
                 = Fin 400).
  { unfold sum. simpl. f_equal. lra. }
  destruct (@regional_contribution_sums_to_100 two_regions
              [("US Market"%string, Fin 100); ("Europe"%string, Fin 300)] 400
              eq_refl Hsum ltac:(lra)) as [H1 [_ H3]].
  split; [exact H1 | exact H3].
Defined.

(* ================================================================= *)
(** ** Diversification ratio *)

Lemma std_cases (c : list float) : std c = NaN \/ exists s, std c = Fin s.
Proof.
  unfold std. destruct (reals _) as [xs|]; [|now left].
  destruct (length xs <=? 1)%nat; [now left | right; eauto].
Qed.

Lemma fold_fadd_nan (l : list float) : fold_left fadd l NaN = NaN.
Proof. induction l; simpl; auto. Qed.

Lemma weighted_sum_tame (w : R) (vs : list float) :
  tame vs ->
  forall a : R,
    fold_left fadd (map2 fmul (repeat (Fin w) (length vs)) vs) (Fin a)
    = match reals vs with
      | Some rs => Fin (a + w * Rsum rs)
      | None => NaN
      end.
Proof.
  induction 1 as [|v vs Hv _ IH]; intros a.
  - simpl. f_equal. lra.
  - cbn [length repeat map2 fold_left]. destruct Hv as [-> | [s ->]].
    + cbn. apply fold_fadd_nan.
    + cbn [fmul fadd reals]. rewrite IH. destruct (reals vs) as [rs|]; [|reflexivity].
      cbn [option_map]. unfold Rsum. cbn [fold_right]. f_equal. lra.
Qed.

Lemma scaled_sum_tame (k : R) (vs : list float) :
  tame vs ->
  forall a : R,
    fold_left fadd (map (fun v => fmul v (Fin k)) vs) (Fin a)
    = match reals vs with
      | Some rs => Fin (a + k * Rsum rs)
      | None => NaN
      end.
Proof.
  induction 1 as [|v vs Hv _ IH]; intros a.
  - simpl. f_equal. lra.
  - cbn [map fold_left]. destruct Hv as [-> | [s ->]].
    + cbn. apply fold_fadd_nan.
    + cbn [fmul fadd reals]. rewrite IH. destruct (reals vs) as [rs|]; [|reflexivity].
      cbn [option_map]. unfold Rsum. cbn [fold_right]. f_equal. lra.
Qed.

Lemma Rsum_zeros (zs : list R) : Forall (fun z => z = 0%R) zs -> Rsum zs = 0%R.
Proof.
  induction 1 as [|z zs Hz _ IH]; unfold Rsum in *; simpl; [reflexivity|]. lra.
Qed.

Lemma dot_zeros (zs : list R) : Forall (fun z => z = 0%R) zs -> dot zs zs = 0%R.
Proof.
  induction 1 as [|z zs Hz _ IH]; unfold dot, Rsum in *; simpl; [reflexivity|].
  rewrite IH, Hz. lra.
Qed.

Lemma dev_zeros (zs : list R) :
  Forall (fun z => z = 0%R) zs -> Forall (fun z => z = 0%R) (dev zs).
Proof.
  intros H. unfold dev, Rmean. rewrite (Rsum_zeros zs H).
  apply Forall_map. eapply Forall_impl; [|exact H].
  intros z ->. unfold Rdiv. ring.
Qed.


Lemma map2_nil_r {A B C : Type} (f : A -> B -> C) (l : list A) : map2 f l [] = [].
Proof. now destruct l. Qed.


Lemma fmul_fadd_distr (w : R) (a x : float) :
  (0 < w)%R ->
  fmul (fadd a x) (Fin w) = fadd (fmul a (Fin w)) (fmul x (Fin w)).
Proof.
  intros Hw. destruct a as [| | |a], x as [| | |x]; cbn [fadd fmul];
    rewrite ?(Rsign_pos w Hw); cbn [fadd]; try reflexivity.
  f_equal. ring.
Qed.

Lemma scaled_fold (w : R) (r : list float) :
  (0 < w)%R ->
  forall acc : float,
    fold_left fadd (map (fun x => fmul x (Fin w)) r) (fmul acc (Fin w))
    = fmul (fold_left fadd r acc) (Fin w).
Proof.
  intros Hw. induction r as [|x r IH]; intros acc; [reflexivity|].
  cbn [map fold_left]. rewrite <- (fmul_fadd_distr w acc x Hw). apply IH.
Qed.

Lemma scaled_complete (w : R) (r : list float) :
  (0 < w)%R -> complete r -> complete (map (fun x => fmul x (Fin w)) r).
Proof.
  intros Hw H. apply Forall_map. eapply Forall_impl; [|exact H].
  intros x Hx. destruct x; cbn [fmul]; rewrite ?(Rsign_pos w Hw);
    try reflexivity; discriminate.
Qed.

Lemma equal_weights (w : R) (r : list float) :
  map2 fmul r (repeat (Fin w) (length r)) = map (fun x => fmul x (Fin w)) r.
Proof. induction r as [|x r IH]; [reflexivity|]. cbn. now rewrite IH. Qed.

Lemma fmul_inverse (n : R) (y : float) :
  (0 < n)%R -> fmul y (Fin (1 / n)) = fdiv y (Fin n).
Proof.
  intros Hn. assert (Hw : (0 < 1 / n)%R) by (apply Rdiv_lt_0_compat; lra).
  destruct y as [| | |y]; cbn [fmul fdiv]; rewrite ?(Rsign_pos _ Hw).
  - reflexivity.
  - destruct (Rlt_dec n 0); [lra|reflexivity].
  - destruct (Rlt_dec n 0); [lra|reflexivity].
  - destruct (Req_dec_T n 0); [lra|]. f_equal. field. lra.
Qed.

(** On a row without a missing cell, the sum of the cells weighted by
    [1 / n] is the mean of the cells. *)
Lemma weighted_row_mean (r : list float) :
  r <> [] -> complete r ->
  sum (map2 fmul r (repeat (Fin (1 / INR (length r))) (length r)))
  = fdiv (fold_left fadd r (Fin 0)) (Fin (INR (length r))).
Proof.
  intros Hne Hc.
  assert (Hn : (0 < INR (length r))%R).
  { apply lt_0_INR. destruct r; [contradiction|cbn; lia]. }
  assert (Hw : (0 < 1 / INR (length r))%R) by (apply Rdiv_lt_0_compat; lra).
  rewrite equal_weights. unfold sum.
  rewrite (map_fill_complete _ _ (scaled_complete _ r Hw Hc)).
  replace (Fin 0) with (fmul (Fin 0) (Fin (1 / INR (length r)))) at 1
    by (cbn [fmul]; f_equal; ring).
  rewrite (scaled_fold _ r Hw). now apply fmul_inverse.
Qed.

Lemma row_complete (df : DataFrame) (i : nat) :
  wf df -> no_missing df -> (i < nrows df)%nat -> complete (row_at i df).
Proof.
  intros Hwf Hc Hi. unfold row_at. apply Forall_map. apply Forall_forall.
  intros c Hin. unfold wf in Hwf. unfold no_missing in Hc.
  rewrite Forall_forall in Hwf, Hc. specialize (Hwf c Hin). specialize (Hc c Hin).
  unfold complete in Hc. rewrite Forall_forall in Hc. apply Hc.
  unfold cell. apply nth_In. lia.
Qed.

(** The portfolio returns that the code forms with equal weights are
    the row means of the specification, on a table without missing
    cells that has a column. *)
Lemma weighted_sums_are_means (df : DataFrame) :
  wf df -> no_missing df -> data df <> [] ->
  Geography.weighted_row_sums df (repeat (Fin (1 / INR (length (data df))))
                                         (length (data df)))
  = Geography.equal_weighted_portfolio df.
Proof.
  intros Hwf Hc Hd. unfold Geography.weighted_row_sums, Geography.equal_weighted_portfolio.
  unfold rows. rewrite !map_map. apply map_ext_in. intros i Hi. apply in_seq in Hi.
  assert (Hlen : length (row_at i df) = length (data df))
    by (unfold row_at; apply length_map).
  rewrite <- Hlen. apply weighted_row_mean.
  - intros E. apply Hd. apply length_zero_iff_nil. rewrite <- Hlen, E. reflexivity.
  - apply row_complete; [assumption|assumption|lia].
Qed.

Lemma sqrt_252_pos : (0 < sqrt 252)%R.
Proof. apply sqrt_lt_R0. lra. Qed.

Lemma fsqrt_252 : fsqrt (Fin 252) = Fin (sqrt 252).
Proof. simpl. destruct (Rlt_dec 252 0); [lra|reflexivity]. Qed.

Lemma INR_pos (n : nat) : n <> O -> (0 < INR n)%R.
Proof. intros H. apply lt_0_INR. lia. Qed.

(** C9, in exact arithmetic: on a well-formed return table without
    missing cells, with a column and at least two rows, whose
    equal-weighted portfolio has a nonzero volatility,
    [calculate_diversification_ratio] returns the ratio of the
    specification: the code's equal weights give the row means, and the
    annualization by the square root of 252 cancels. *)
Theorem diversification_ratio_refines_spec (self : Geography.GeographyAnalyzer) :
  wf (Geography.returns self) -> no_missing (Geography.returns self) ->
  data (Geography.returns self) <> [] ->
  (2 <= nrows (Geography.returns self))%nat ->
  Geography.portfolio_volatility self <> Fin 0 ->
  Geography.calculate_diversification_ratio self
  = Ok (Geography.spec_diversification_ratio self).
Proof.
  intros Hwf Hcomplete Hd Hrows Hvol.
  unfold Geography.calculate_diversification_ratio, Geography.spec_diversification_ratio,
    Geography.calculate_regional_volatility, Geography.annualized, reduce, columns.
  set (df := Geography.returns self) in *.
  rewrite !length_map. rewrite !map_map. cbn [snd].
  set (n := length (data df)).
  assert (Hn : n <> O).
  { unfold n. destruct (data df); [contradiction|discriminate]. }
  pose proof (INR_pos n Hn) as Hpos.
  unfold Analysis.py_div. destruct (Req_dec_T (INR n) 0) as [Hz|_]; [lra|].
  cbn [bind]. f_equal.
  assert (Hp : std (Geography.weighted_row_sums df (repeat (Fin (1 / INR n)) n))
               = Geography.portfolio_volatility self).
  { unfold Geography.portfolio_volatility. fold df. unfold n.
    now rewrite (weighted_sums_are_means df Hwf Hcomplete Hd). }
  rewrite Hp. clear Hp.
  set (vs := map (fun c : Column => std (snd c)) (data df)).
  assert (Hvs : tame vs).
  { unfold vs. apply Forall_map. apply Forall_forall. intros c _. apply std_cases. }
  assert (Hlen : length vs = n) by (unfold vs; now rewrite length_map).
  unfold Geography.np_dot.
  replace (repeat (Fin (1 / INR n)) n) with (repeat (Fin (1 / INR n)) (length vs))
    by now rewrite Hlen.
  rewrite (weighted_sum_tame (1 / INR n) vs Hvs 0).
  change (map (fun x : Column => fmul (std (snd x)) (fsqrt (Fin (IZR 252)))) (data df))
    with (map (fun x : Column => (fun v => fmul v (fsqrt (Fin 252))) (std (snd x))) (data df)).
  rewrite <- (map_map (fun c : Column => std (snd c))
                      (fun v => fmul v (fsqrt (Fin 252)))).
  fold vs. rewrite fsqrt_252. rewrite (scaled_sum_tame (sqrt 252) vs Hvs 0).
  pose proof sqrt_252_pos as Hk.
  destruct (reals vs) as [rs|].
  2:{ now destruct (Geography.portfolio_volatility self). }
  rewrite fdiv_fin by lra.
  destruct (std_cases (Geography.equal_weighted_portfolio df)) as [Hs | [p Hs]];
    unfold Geography.portfolio_volatility in *; fold df in Hvol |- *; rewrite Hs in *.
  - reflexivity.
  - assert (p <> 0%R) by (intros ->; now apply Hvol).
    cbn [fmul]. rewrite !fdiv_fin by nra. f_equal. field. repeat split; lra.
Qed.

Lemma two_assets_volatility :
  Geography.portfolio_volatility two_assets <> Fin 0.
Proof.
  unfold Geography.portfolio_volatility, Geography.equal_weighted_portfolio,
    rows, row_at, two_assets.
  cbn [Geography.returns data index nrows length seq map cell nth snd fold_left fadd].
  change (INR 2) with (1 + 1)%R.
  rewrite !fdiv_fin by lra.
  unfold std. cbn. unfold Rmean, Rsum. cbn.
  intros H. injection H as H.
  apply sqrt_eq_0 in H.
  - lra.
  - lra.
Qed.

Lemma diversification_ratio_refines_spec_witness :
  Geography.calculate_diversification_ratio two_assets
  = Ok (Geography.spec_diversification_ratio two_assets).
Proof.
  apply diversification_ratio_refines_spec.
  - repeat constructor.
  - repeat constructor.
  - discriminate.
  - unfold nrows, two_assets. simpl. lia.
  - exact two_assets_volatility.
Defined.

(* ================================================================= *)
(** ** Sharpe ratio *)

Lemma map2_map_map {A B C D : Type} (f : B -> C -> D) (g : A -> B) (h : A -> C)
      (l : list A) :
  map2 f (map g l) (map h l) = map (fun x => f (g x) (h x)) l.
Proof. induction l; simpl; congruence. Qed.










(* ================================================================= *)
(** ** Correlation *)


Lemma dot_cons (x y : R) (u v : list R) :
  dot (x :: u) (y :: v) = (x * y + dot u v)%R.
Proof. reflexivity. Qed.

Lemma dot_self_nonneg (u : list R) : (0 <= dot u u)%R.
Proof.
  induction u as [|x u IH]; [unfold dot, Rsum; simpl; lra|].
  rewrite dot_cons. nra.
Qed.

(** Cauchy-Schwarz for the sums of products that [corr] forms. *)
Lemma cauchy_schwarz (u : list R) :
  forall v : list R, (dot u v * dot u v <= dot u u * dot v v)%R.
Proof.
  induction u as [|x u IH]; intros v.
  - unfold dot, Rsum. simpl. lra.
  - destruct v as [|y v].
    + unfold dot at 1 2 4. unfold Rsum. simpl. lra.
    + rewrite !dot_cons. specialize (IH v).
      pose proof (dot_self_nonneg u) as HA. pose proof (dot_self_nonneg v) as HB.
      set (A := dot u u) in *. set (B := dot v v) in *. set (C := dot u v) in *.
      assert (Hcross : (2 * (x * y * C) <= x * x * B + y * y * A)%R).
      { set (T := (x * y * C)%R). set (P := (x * x * B)%R). set (Q := (y * y * A)%R).
        assert (HP : (0 <= P)%R) by (unfold P; nra).
        assert (HQ : (0 <= Q)%R) by (unfold Q; nra).
        assert (H1 : (T * T <= P * Q)%R).
        { replace (T * T)%R with ((x * y) * (x * y) * (C * C))%R by (unfold T; ring).
          replace (P * Q)%R with ((x * y) * (x * y) * (A * B))%R by (unfold P, Q; ring).
          apply Rmult_le_compat_l; [nra | exact IH]. }
        clearbody T P Q. clear - HP HQ H1.
        pose proof (Rle_0_sqr (P - Q)) as H2. unfold Rsqr in H2.
        destruct (Rle_dec (2 * T) (P + Q)) as [Hle|Hgt]; [exact Hle|].
        exfalso.
        assert (H3 : ((P + Q) * (P + Q) < (2 * T) * (2 * T))%R)
          by (apply Rmult_le_0_lt_compat; lra).
        nra. }
      nra.
Qed.











(* ================================================================= *)
(** ** Rolling metrics *)

Lemma rolling_ok (window : Z) (agg : list float -> float) (df : DataFrame) :
  (0 <= window)%Z -> exists t, rolling window agg df = Ok t.
Proof.
  intros H. unfold rolling. destruct (Z.ltb_spec window 0); [lia|]. eauto.
Qed.

(** C4, as the code has it: [get_rolling_metrics] raises the unknown-
    metric error exactly when the metric is none of volatility, return
    and sharpe; for these three and a window that is not negative it
    returns a table. *)
Theorem rolling_metrics_invalid_metric (self : Analysis.PerformanceAnalyzer)
        (window : Z) (metric : string) :
  (Analysis.get_rolling_metrics self window metric = Raise (InvalidMetric metric)
   <-> ~ In metric known_metrics)
  /\ (In metric known_metrics -> (0 <= window)%Z ->
      exists table, Analysis.get_rolling_metrics self window metric = Ok table).
Proof.
  unfold Analysis.get_rolling_metrics, known_metrics.
  destruct (String.eqb_spec metric "volatility") as [->|Hv].
  { split.
    - split; [|intros H; exfalso; apply H; now left].
      intros H. exfalso. unfold rolling in H.
      destruct (window <? 0)%Z; discriminate.
    - intros _ Hw. destruct (rolling_ok window std (Analysis.returns self) Hw) as [t ->].
      cbn [bind]. eauto. }
  destruct (String.eqb_spec metric "return") as [->|Hr].
  { split.
    - split; [|intros H; exfalso; apply H; right; now left].
      intros H. exfalso. unfold rolling in H.
      destruct (window <? 0)%Z; discriminate.
    - intros _ Hw. destruct (rolling_ok window mean (Analysis.returns self) Hw) as [t ->].
      cbn [bind]. eauto. }
  destruct (String.eqb_spec metric "sharpe") as [->|Hs].
  { split.
    - split; [|intros H; exfalso; apply H; right; right; now left].
      intros H. exfalso. unfold rolling in H.
      destruct (window <? 0)%Z; discriminate.
    - intros _ Hw. destruct (rolling_ok window mean (Analysis.returns self) Hw) as [t ->].
      destruct (rolling_ok window std (Analysis.returns self) Hw) as [u ->].
      cbn [bind]. eauto. }
  split.
  - split; [|reflexivity]. intros _ [H|[H|[H|[]]]]; congruence.
  - intros [H|[H|[H|[]]]]; congruence.
Qed.

Lemma rolling_metrics_invalid_metric_witness :
  (exists table,
      Analysis.get_rolling_metrics (Analysis.init flat_returns) 252 "sharpe" = Ok table)
  /\ Analysis.get_rolling_metrics (Analysis.init flat_returns) 252 "unknown"
     = Raise (InvalidMetric "unknown").
Proof.
  split.
  - apply (proj2 (rolling_metrics_invalid_metric (Analysis.init flat_returns)
                    252 "sharpe")).
    + right; right; now left.
    + lia.
  - apply (proj1 (rolling_metrics_invalid_metric (Analysis.init flat_returns)
                    252 "unknown")).
    intros [H|[H|[H|[]]]]; discriminate.
Defined.

(** C4 as stated fails: with a known metric and a negative window the
    call raises, and what it raises is pandas' complaint about the window. *)
Lemma rolling_metrics_window_counterexample :
  In "volatility"%string known_metrics
  /\ Analysis.get_rolling_metrics (Analysis.init flat_returns) (-1) "volatility"
     = Raise (ValueError "window must be an integer 0 or greater").
Proof. split; [now left | reflexivity]. Qed.

(* ================================================================= *)
(** ** Loading tickers *)

Lemma dict_set_absent {V : Type} (d : list (string * V)) (k : string) (v : V) :
  ~ In k (map fst d) -> dict_set d k v = d ++ [(k, v)].
Proof.
  induction d as [|[k' v'] d IH]; intros H; simpl; [reflexivity|].
  destruct (String.eqb_spec k' k) as [->|_].
  - exfalso. apply H. now left.
  - f_equal. apply IH. intros Hin. apply H. now right.
Qed.


Section Batch.

Variable P : Factors.Platform.
Variable hash_secret : Z.
Variable self : Factors.FactorDataLoader.
Variable usd_tickers : list string.





End Batch.

(* ================================================================= *)
(** ** Rows of a filtered table *)

Lemma keep_map_filter {A : Type} (p : A -> bool) (l : list A) :
  keep (map p l) l = filter p l.
Proof.
  induction l as [|x l IH]; [reflexivity|]. simpl. rewrite IH. reflexivity.
Qed.

Lemma row_of_tl (cs : list (list float)) (i : nat) :
  row_of cs (S i) = row_of (map (@tl float) cs) i.
Proof.
  unfold row_of. rewrite map_map. apply map_ext. intros c.
  destruct c; [now destruct i | reflexivity].
Qed.

Lemma rows_keep (mask : list bool) :
  forall (cs : list (list float)) (idx : list Date),
    length mask = length idx ->
    Forall (fun c => length c = length idx) cs ->
    map (row_of (map (keep mask) cs)) (seq 0 (length (keep mask idx)))
    = keep mask (map (row_of cs) (seq 0 (length idx))).
Proof.
  induction mask as [|b mask IH]; intros cs [|d idx] Hm Hcs; try discriminate.
  - reflexivity.
  - injection Hm as Hm.
    assert (Htl : Forall (fun c => length c = length idx) (map (@tl float) cs)).
    { apply Forall_map. eapply Forall_impl; [|exact Hcs].
      intros c Hc. destruct c; simpl in *; [discriminate|lia]. }
    specialize (IH (map (@tl float) cs) idx Hm Htl).
    assert (Hk : map (keep mask) (map (@tl float) cs)
                 = map (fun c => keep mask (tl c)) cs) by now rewrite map_map.
    rewrite Hk in IH.
    cbn [length seq map]. rewrite <- seq_shift, map_map.
    rewrite (map_ext _ _ (row_of_tl cs)). cbn [keep].
    destruct b.
    + cbn [length seq map]. rewrite <- seq_shift, map_map. f_equal.
      * unfold row_of. rewrite map_map. apply map_ext_in. intros c Hc.
        rewrite Forall_forall in Hcs. specialize (Hcs c Hc).
        destruct c; [discriminate|reflexivity].
      * rewrite <- IH. apply map_ext. intros i.
        unfold row_of. rewrite !map_map. apply map_ext_in. intros c Hc.
        rewrite Forall_forall in Hcs. specialize (Hcs c Hc).
        destruct c; [discriminate|reflexivity].
    + rewrite <- IH. apply map_ext. intros i.
      unfold row_of. rewrite !map_map. apply map_ext_in. intros c Hc.
      rewrite Forall_forall in Hcs. specialize (Hcs c Hc).
      destruct c; [discriminate|reflexivity].
Qed.

Lemma rows_row_of (df : DataFrame) :
  rows df = map (row_of (map snd (data df))) (seq 0 (nrows df)).
Proof.
  unfold rows, row_at, row_of, cell. apply map_ext. intros i. now rewrite map_map.
Qed.

(** Selecting rows of a well-formed table by a mask selects them from
    its list of rows. *)
Lemma rows_select_rows (mask : list bool) (df : DataFrame) :
  wf df -> length mask = nrows df ->
  rows (select_rows mask df) = keep mask (rows df).
Proof.
  intros Hwf Hm. rewrite !rows_row_of. unfold select_rows, nrows. cbn [index data].
  rewrite map_map. cbn [snd].
  rewrite <- (map_map snd (keep mask)).
  apply rows_keep; [exact Hm|].
  apply Forall_map. exact Hwf.
Qed.

(** [dropna(how='all')] keeps, in order, exactly the rows that hold a
    present cell. *)
Lemma rows_dropna_all (df : DataFrame) :
  wf df ->
  rows (dropna_all df) = filter (fun r => negb (forallb is_nan r)) (rows df).
Proof.
  intros Hwf. unfold dropna_all. rewrite rows_select_rows.
  - apply keep_map_filter.
  - exact Hwf.
  - unfold rows. now rewrite !length_map, length_seq.
Qed.

(** [dropna()] keeps, in order, exactly the rows without a missing cell. *)
Lemma rows_dropna (df : DataFrame) :
  wf df ->
  rows (dropna df) = filter (fun r => negb (existsb is_nan r)) (rows df).
Proof.
  intros Hwf. unfold dropna. rewrite rows_select_rows.
  - apply keep_map_filter.
  - exact Hwf.
  - unfold rows. now rewrite !length_map, length_seq.
Qed.

(** The rows of [get_returns] on any well-formed price table: the rows
    of changes that hold no missing cell. *)
Lemma get_returns_rows (pad : bool) (prices : DataFrame) :
  wf prices ->
  rows (Factors.get_returns pad prices)
  = filter (fun r => negb (existsb is_nan r)) (rows (pct_change pad prices)).
Proof.
  intros Hwf. unfold Factors.get_returns. apply rows_dropna. now apply wf_pct_change.
Qed.


(* ================================================================= *)
(** ** Synthetic prices *)

Lemma cumsum_from_inj (l l' : list R) :
  forall a : R, Factors.cumsum_from a l = Factors.cumsum_from a l' -> l = l'.
Proof.
  revert l'. induction l as [|x l IH]; intros [|x' l'] a H; simpl in H;
    try discriminate; [reflexivity|].
  injection H as Hx Ht. assert (x = x') by lra. subst x'.
  f_equal. exact (IH l' _ Ht).
Qed.

Lemma price_path_inj (l l' : list R) :
  map (fun s => Fin (100 * exp s)) l = map (fun s => Fin (100 * exp s)) l' -> l = l'.
Proof.
  revert l'. induction l as [|x l IH]; intros [|x' l'] H; simpl in H;
    try discriminate; [reflexivity|].
  injection H as Hx Ht. f_equal; [|exact (IH l' Ht)].
  apply exp_inv. lra.
Qed.

(** The price path determines the draws it was built from. *)
Lemma mock_path_determines_draws (P : Factors.Platform)
      (self : Factors.FactorDataLoader) (name : string) (secret1 secret2 : Z) :
  Factors._generate_mock_data P secret1 self name
  = Factors._generate_mock_data P secret2 self name ->
  mock_draws P secret1 self name = mock_draws P secret2 self name.
Proof.
  unfold Factors._generate_mock_data, mock_draws, mock_seed. cbv zeta.
  intros H. injection H as H. apply price_path_inj in H.
  unfold Factors.cumsum in H. exact (cumsum_from_inj _ _ _ H).
Qed.

(** C2: for one name and one date range, the synthetic price paths of
    two interpreters coincide exactly when the hashes that the two
    interpreters give to the name seed the same draws; the path depends
    on the string-hash secret of the interpreter and on nothing else
    outside the arguments. *)
Theorem mock_data_reproducible_iff (P : Factors.Platform)
        (self : Factors.FactorDataLoader) (name : string) (secret1 secret2 : Z) :
  Factors._generate_mock_data P secret1 self name
  = Factors._generate_mock_data P secret2 self name
  <-> mock_draws P secret1 self name = mock_draws P secret2 self name.
Proof.
  split; [apply mock_path_determines_draws|].
  unfold Factors._generate_mock_data, mock_draws, mock_seed. cbv zeta.
  intros H. now rewrite H.
Qed.

(** Two interpreters whose secrets differ, on a platform where the hash
    mixes the secret in: the paths for "Value" over the first week of
    2018 differ. *)
Lemma mock_data_differs_between_interpreters :
  Factors._generate_mock_data offline 0 first_week "Value"
  <> Factors._generate_mock_data offline 1 first_week "Value".
Proof.
  intros H. apply mock_path_determines_draws in H.
  unfold mock_draws, mock_seed in H.
  change (length (Factors.bdate_range (Factors.start_date first_week)
                                      (Factors.end_date first_week)))
    with 5%nat in H.
  cbn [Factors.normal Factors.str_hash offline repeat] in H.
  change ((0 + Z.of_nat (String.length "Value")) mod 2 ^ 32)%Z with 5%Z in H.
  change ((1 + Z.of_nat (String.length "Value")) mod 2 ^ 32)%Z with 6%Z in H.
  injection H as H _. lra.
Qed.

(* ================================================================= *)
(** ** Business days and synthetic series *)

Lemma increasing_offsets (s : Date) (n a : nat) :
  increasing (map (fun k => (s + Z.of_nat k)%Z) (seq a n)).
Proof.
  revert a. induction n as [|n IH]; intros a; cbn [seq map increasing]; [exact I|].
  split; [|apply IH].
  apply Forall_forall. intros d Hd. apply in_map_iff in Hd.
  destruct Hd as [k [<- Hk]]. apply in_seq in Hk. lia.
Qed.

Lemma increasing_filter (p : Date -> bool) (l : list Date) :
  increasing l -> increasing (filter p l).
Proof.
  induction l as [|d l IH]; cbn [filter increasing]; [tauto|].
  intros [Hd Hl]. destruct (p d); [|now apply IH]. split; [|now apply IH].
  apply Forall_forall. intros x Hx. apply filter_In in Hx.
  rewrite Forall_forall in Hd. apply Hd. tauto.
Qed.


Lemma bdate_range_increasing (start stop : Date) :
  increasing (Factors.bdate_range start stop).
Proof.
  unfold Factors.bdate_range. apply increasing_filter, increasing_offsets.
Qed.

Lemma bdate_range_In (start stop d : Date) :
  In d (Factors.bdate_range start stop)
  <-> (start <= d <= stop)%Z /\ (Factors.weekday d < 5)%Z.
Proof.
  unfold Factors.bdate_range. rewrite filter_In, in_map_iff. split.
  - intros [[k [<- Hk]] Hw]. apply in_seq in Hk. apply Z.ltb_lt in Hw.
    split; [lia|exact Hw].
  - intros [Hd Hw]. split; [|now apply Z.ltb_lt].
    exists (Z.to_nat (d - start)). split; [lia|]. apply in_seq. lia.
Qed.

Lemma mock_prices_positive (P : Factors.Platform) (hash_secret : Z)
      (self : Factors.FactorDataLoader) (name : string) :
  Forall positive (Factors.svalues (Factors._generate_mock_data P hash_secret self name)).
Proof.
  unfold Factors._generate_mock_data. cbn [Factors.svalues].
  apply Forall_map. apply Forall_forall. intros s _. simpl.
  pose proof (exp_pos s). lra.
Qed.

(** X1: the synthetic series of [_generate_mock_data] sits on the
    Mondays to Fridays from the start to the end date, each once and in
    increasing order, and every price in it is a positive number; with
    the end before the start it has no date. *)
Theorem mock_data_index_and_prices (P : Factors.Platform) (hash_secret : Z)
        (self : Factors.FactorDataLoader) (name : string) :
  let s := Factors._generate_mock_data P hash_secret self name in
  increasing (Factors.sindex s)
  /\ (forall d, In d (Factors.sindex s)
                <-> (Factors.start_date self <= d <= Factors.end_date self)%Z
                    /\ (Factors.weekday d < 5)%Z)
  /\ Forall positive (Factors.svalues s)
  /\ ((Factors.end_date self < Factors.start_date self)%Z -> Factors.sindex s = []).
Proof.
  cbn zeta. unfold Factors._generate_mock_data. cbn [Factors.sindex Factors.svalues].
  split; [apply bdate_range_increasing|]. split; [intros d; apply bdate_range_In|].
  split.
  - exact (mock_prices_positive P hash_secret self name).
  - intros H. unfold Factors.bdate_range.
    replace (Z.to_nat (Factors.end_date self - Factors.start_date self + 1)) with O by lia.
    reflexivity.
Qed.

Lemma mock_data_index_and_prices_witness :
  Factors.sindex (Factors._generate_mock_data offline 0
                    (Factors.mkLoader 736699%Z 736695%Z "EURUSD=X" None) "Value") = [].
Proof.
  apply (mock_data_index_and_prices offline 0
           (Factors.mkLoader 736699%Z 736695%Z "EURUSD=X" None) "Value").
  simpl. lia.
Defined.

(* ================================================================= *)
(** ** Loading without the market-data library *)




Lemma keep_trues {A : Type} (l : list A) (mask : list bool) :
  mask = repeat true (length l) -> keep mask l = l.
Proof. intros ->. apply keep_all. Qed.




Lemma positive_quoted (c : list float) : Forall positive c -> Forall quoted c.
Proof.
  intros H. eapply Forall_impl; [|exact H]. intros x. destruct x; simpl; try tauto. lra.
Qed.

Lemma fetch_unavailable (P : Factors.Platform) (self : Factors.FactorDataLoader)
      (ticker : string) :
  Factors.YFINANCE_AVAILABLE P = false -> Factors._fetch_data P self ticker = None.
Proof. intros H. unfold Factors._fetch_data. now rewrite H. Qed.








(* ================================================================= *)
(** ** Currency conversion and fetching *)

Lemma fdiv_fmul_cancel (a : float) (k : R) :
  (0 < k)%R -> fdiv (fmul a (Fin k)) (Fin k) = a.
Proof.
  intros Hk. destruct a as [| | |x]; cbn [fmul].
  - reflexivity.
  - rewrite Rsign_pos by assumption. cbn. destruct (Rlt_dec k 0); [lra|reflexivity].
  - rewrite Rsign_pos by assumption. cbn. destruct (Rlt_dec k 0); [lra|reflexivity].
  - rewrite fdiv_fin by lra. f_equal. field. lra.
Qed.

Lemma length_map2_same {A B C : Type} (f : A -> B -> C) (l : list A) (m : list B) :
  length m = length l -> length (map2 f l m) = length l.
Proof. intros H. rewrite length_map2, H. apply Nat.min_id. Qed.

(** X3: [_convert_usd_to_eur] keeps the dates of the asset.  Without a
    rate series it never raises and multiplies every price by 0.91, so
    dividing the result by 0.91 gives the prices back; with a rate
    series it raises what the reindexing raises and otherwise
    multiplies each price by the rate aligned to its date. *)
Theorem convert_usd_to_eur_keeps_dates (P : Factors.Platform)
        (self : Factors.FactorDataLoader) (usd_prices : Factors.Series) :
  (Factors.usd_eur_rate self = None ->
   exists eur,
     Factors._convert_usd_to_eur P self usd_prices = Ok eur
     /\ Factors.sindex eur = Factors.sindex usd_prices
     /\ map (fun y => fdiv y (Fin 0.91)) (Factors.svalues eur)
        = Factors.svalues usd_prices)
  /\ (forall rate,
        Factors.usd_eur_rate self = Some rate ->
        match Factors.reindex_ffill P rate (Factors.sindex usd_prices) with
        | Raise e => Factors._convert_usd_to_eur P self usd_prices = Raise e
        | Ok aligned =>
            Factors._convert_usd_to_eur P self usd_prices
            = Ok (Factors.mkSeries (Factors.sindex usd_prices)
                                   (map2 fmul (Factors.svalues usd_prices) aligned))
        end).
Proof.
  split.
  - intros H. unfold Factors._convert_usd_to_eur. rewrite H.
    eexists. split; [reflexivity|]. cbn [Factors.sindex Factors.svalues].
    split; [reflexivity|]. rewrite map_map.
    rewrite (map_ext _ (fun x => x)); [apply map_id|].
    intros a. apply fdiv_fmul_cancel. lra.
  - intros rate H. unfold Factors._convert_usd_to_eur. rewrite H.
    now destruct (Factors.reindex_ffill P rate (Factors.sindex usd_prices)).
Qed.

Lemma convert_usd_to_eur_keeps_dates_witness :
  exists eur,
    Factors._convert_usd_to_eur offline first_week
      (Factors.mkSeries [736695%Z; 736696%Z] [Fin 100; Fin 110]) = Ok eur
    /\ Factors.sindex eur = [736695%Z; 736696%Z]
    /\ map (fun y => fdiv y (Fin 0.91)) (Factors.svalues eur) = [Fin 100; Fin 110].
Proof.
  apply (proj1 (convert_usd_to_eur_keeps_dates offline first_week
                  (Factors.mkSeries [736695%Z; 736696%Z] [Fin 100; Fin 110]))).
  reflexivity.
Defined.

(** X4: whenever [_fetch_data] returns a table, the library is
    available and the table has a row; and, the download having as many
    labels as columns, it has a column as well: the emptiness test that
    [load_tickers] repeats on the result never fires.  Without the
    library [_fetch_data] returns nothing. *)
Theorem fetch_data_never_empty (P : Factors.Platform)
        (self : Factors.FactorDataLoader) (ticker : string) :
  (forall data,
      Factors._fetch_data P self ticker = Some data ->
      Factors.YFINANCE_AVAILABLE P = true
      /\ nrows data <> O
      /\ (consistent (Factors.yf_download P ticker (Factors.start_date self)
                                          (Factors.end_date self)) ->
          Factors.empty data = false))
  /\ (Factors.YFINANCE_AVAILABLE P = false -> Factors._fetch_data P self ticker = None).
Proof.
  split; [|apply fetch_unavailable].
  intros data. unfold Factors._fetch_data.
  destruct (Factors.YFINANCE_AVAILABLE P); cbn [negb]; [|discriminate].
  destruct (Factors.yf_download P ticker _ _) as [|idx labels cols]; [discriminate|].
  destruct (Nat.eqb_spec (length idx) 0) as [|Hi]; cbn [orb]; [discriminate|].
  destruct (Nat.eqb_spec (length cols) 0) as [|Hc]; [discriminate|].
  intros H. injection H as <-. split; [reflexivity|]. split; [exact Hi|].
  cbn [consistent]. intros Hl. unfold Factors.empty, nrows. cbn [index data].
  rewrite length_combine, Hl, Nat.min_id.
  destruct (Nat.eqb_spec (length idx) 0); [contradiction|].
  destruct (Nat.eqb_spec (length cols) 0); [contradiction|reflexivity].
Qed.

Lemma fetch_data_never_empty_witness :
  exists data,
    Factors._fetch_data two_closes first_week "SPY" = Some data
    /\ nrows data <> O /\ Factors.empty data = false.
Proof.
  exists (mkDataFrame [736695%Z; 736696%Z] [("Close"%string, [Fin 100; Fin 110])]).
  split; [reflexivity|].
  destruct (proj1 (fetch_data_never_empty two_closes first_week "SPY")
                  (mkDataFrame [736695%Z; 736696%Z]
                               [("Close"%string, [Fin 100; Fin 110])]) eq_refl)
    as [_ [Hr He]].
  split; [exact Hr|]. apply He. reflexivity.
Defined.

(* ================================================================= *)
(** ** Returns of quoted prices, and the prices rebuilt from them *)

Lemma quoted_mask (pad : bool) (prices : DataFrame) :
  wf prices -> all_quoted prices -> data prices <> [] ->
  map (fun r => negb (existsb is_nan r)) (rows (pct_change pad prices))
  = match nrows prices with
    | O => []
    | S n => false :: repeat true n
    end.
Proof.
  intros Hwf Hq Hd. unfold rows. rewrite map_map, nrows_pct_change.
  destruct (nrows prices) as [|n] eqn:E; [reflexivity|].
  cbn [seq map]. rewrite first_change_missing; try assumption; [|lia].
  cbn [negb]. f_equal.
  rewrite (map_const_true (fun i => negb (existsb is_nan (row_at i (pct_change pad prices))))).
  - now rewrite length_seq.
  - intros i Hi. apply in_seq in Hi.
    rewrite later_change_present; auto. lia.
Qed.

(** On a table of quoted prices [get_returns] is, column by column, the
    change of each price against the one before it. *)
Lemma get_returns_quoted (pad : bool) (prices : DataFrame) :
  wf prices -> all_quoted prices -> data prices <> [] ->
  Factors.get_returns pad prices
  = mkDataFrame (tl (index prices))
      (map (fun c : Column => (fst c, changes (hd NaN (snd c)) (tl (snd c))))
           (data prices)).
Proof.
  intros Hwf Hq Hd. unfold Factors.get_returns, dropna.
  rewrite (quoted_mask pad prices Hwf Hq Hd).
  unfold select_rows. cbn [index data pct_change]. rewrite map_map. cbn [fst snd].
  unfold wf in Hwf. unfold all_quoted in Hq. unfold nrows in *.
  destruct (index prices) as [|d idx].
  - cbn [length keep tl]. f_equal. apply map_ext_in. intros c Hc.
    rewrite Forall_forall in Hwf. specialize (Hwf c Hc). cbn [length] in Hwf.
    destruct (snd c); [reflexivity|discriminate].
  - cbn [length keep tl]. f_equal; [apply keep_all|].
    apply map_ext_in. intros c Hc.
    rewrite Forall_forall in Hwf, Hq. specialize (Hwf c Hc). specialize (Hq c Hc).
    destruct (snd c) as [|x t]; [discriminate|].
    rewrite pct_change_col_quoted by assumption. cbn [keep hd tl]. f_equal.
    cbn [length] in Hwf. injection Hwf as Hwf.
    rewrite <- Hwf, <- (length_changes x t). apply keep_all.
Qed.

Lemma changes_growth (prev : R) (t : list float) :
  prev <> 0%R -> Forall quoted t ->
  forall (x0 : R),
    x0 <> 0%R ->
    np_cumprod_from (Fin (prev / x0)) (map (fadd (Fin 1)) (changes (Fin prev) t))
    = map (fun p => fdiv p (Fin x0)) t.
Proof.
  intros Hprev Ht. revert prev Hprev.
  induction Ht as [|p t Hp _ IH]; intros prev Hprev x0 Hx0; [reflexivity|].
  destruct p as [| | |p]; try contradiction. cbn in Hp.
  cbn [changes map np_cumprod_from].
  rewrite (fdiv_fin p prev), fsub_fin by assumption. cbn [fadd fmul].
  rewrite (fdiv_fin p x0) by assumption.
  assert (E : (prev / x0 * (1 + (p / prev - 1)))%R = (p / x0)%R) by (field; tauto).
  rewrite E. f_equal. now apply IH.
Qed.

(** Compounding the changes of a quoted column gives each later price
    over the first one. *)
Lemma cumprod_changes (x : float) (t : list float) :
  Forall quoted (x :: t) ->
  cumprod (map (fadd (Fin 1)) (changes x t)) = map (fun p => fdiv p x) t.
Proof.
  intros H. inversion H as [|? ? Hx Ht]; subst.
  rewrite cumprod_complete.
  2:{ apply growth_complete. exact (changes_quoted x t H). }
  destruct x as [| | |x0]; try contradiction. cbn in Hx.
  destruct t as [|p t]; [reflexivity|].
  inversion Ht as [|? ? Hp Ht']; subst.
  destruct p as [| | |p]; try contradiction. cbn in Hp.
  cbn [changes map np_cumprod].
  rewrite (fdiv_fin p x0), fsub_fin by assumption. cbn [fadd].
  assert (E : (1 + (p / x0 - 1))%R = (p / x0)%R) by lra.
  rewrite E. f_equal. now apply changes_growth.
Qed.

Lemma fmul_comm (a b : float) : fmul a b = fmul b a.
Proof.
  destruct a, b; cbn; try reflexivity. f_equal. lra.
Qed.

Lemma map2_map_r {A B C : Type} (f : A -> B -> C) (g : A -> B) (l : list A) :
  map2 f l (map g l) = map (fun x => f x (g x)) l.
Proof. induction l; simpl; congruence. Qed.

(** X5: for a table of quoted prices (every cell a finite nonzero
    number) with at least one row and one column, the prices that the
    analyzer rebuilds from [get_returns] are the relative performance
    of the geography module without its first row: each price over the
    first price of its column, times 100. *)
Theorem analyzer_prices_are_rebased (pad : bool) (prices rets : DataFrame) :
  wf prices -> all_quoted prices -> data prices <> [] -> nrows prices <> O ->
  exists rel,
    Geography.calculate_relative_performance (Geography.mkGeography prices rets) = Ok rel
    /\ index rel = index prices
    /\ columns rel = columns prices
    /\ Analysis.prices (Analysis.init (Factors.get_returns pad prices))
       = mkDataFrame (tl (index rel))
                     (map (fun c : Column => (fst c, tl (snd c))) (data rel)).
Proof.
  intros Hwf Hq Hd Hn.
  unfold Geography.calculate_relative_performance, iloc_first.
  cbn [Geography.prices]. destruct (nrows prices) as [|n] eqn:E; [contradiction|].
  cbn [bind]. eexists. split; [reflexivity|]. cbn [index data].
  split; [reflexivity|]. rewrite map2_map_r. cbn [fst snd]. split.
  { unfold columns. cbn [data]. now rewrite map_map. }
  rewrite (get_returns_quoted pad prices Hwf Hq Hd).
  unfold Analysis.init, Analysis._returns_to_prices, map_frame.
  cbn [Analysis.prices index data]. f_equal. rewrite !map_map. cbn [fst snd].
  apply map_ext_in. intros c Hc. f_equal.
  unfold all_quoted in Hq. rewrite Forall_forall in Hq. specialize (Hq c Hc).
  unfold wf in Hwf. rewrite Forall_forall in Hwf. specialize (Hwf c Hc).
  destruct (snd c) as [|x t]; [rewrite E in Hwf; discriminate|].
  cbn [hd tl map cell nth]. rewrite (cumprod_changes x t Hq), !map_map.
  apply map_ext. intros p. apply fmul_comm.
Qed.

Lemma analyzer_prices_are_rebased_witness :
  exists rel,
    Geography.calculate_relative_performance
      (Geography.mkGeography two_quotes (Factors.get_returns false two_quotes)) = Ok rel
    /\ Analysis.prices (Analysis.init (Factors.get_returns false two_quotes))
       = mkDataFrame (tl (index rel))
                     (map (fun c : Column => (fst c, tl (snd c))) (data rel)).
Proof.
  destruct (analyzer_prices_are_rebased false two_quotes
              (Factors.get_returns false two_quotes)) as [rel [H1 [_ [_ H2]]]].
  - repeat constructor.
  - repeat constructor; simpl; lra.
  - discriminate.
  - discriminate.
  - exists rel. split; assumption.
Defined.

(** X6: for a table of quoted prices with at least one column, every
    cumulative return that the analyzer computes from [get_returns] is
    the price of that day over the first price of the column, minus 1. *)
Theorem cumulative_returns_are_price_ratios (pad : bool) (prices : DataFrame) :
  wf prices -> all_quoted prices -> data prices <> [] ->
  Analysis.calculate_cumulative_returns (Analysis.init (Factors.get_returns pad prices))
  = mkDataFrame (tl (index prices))
      (map (fun c : Column =>
              (fst c, map (fun p => fsub (fdiv p (hd NaN (snd c))) (Fin 1)) (tl (snd c))))
           (data prices)).
Proof.
  intros Hwf Hq Hd.
  rewrite (get_returns_quoted pad prices Hwf Hq Hd).
  unfold Analysis.calculate_cumulative_returns, Analysis.init.
  cbn [Analysis.returns index data]. f_equal. rewrite !map_map. cbn [fst snd].
  apply map_ext_in. intros c Hc. f_equal.
  unfold all_quoted in Hq. rewrite Forall_forall in Hq. specialize (Hq c Hc).
  destruct (snd c) as [|x t]; [reflexivity|].
  cbn [hd tl]. now rewrite (cumprod_changes x t Hq), map_map.
Qed.

Lemma cumulative_returns_are_price_ratios_witness :
  Analysis.calculate_cumulative_returns
    (Analysis.init (Factors.get_returns false two_quotes))
  = mkDataFrame [737061%Z; 737062%Z]
      [("Value"%string, [fsub (fdiv (Fin 110) (Fin 100)) (Fin 1);
                         fsub (fdiv (Fin 99) (Fin 100)) (Fin 1)])].
Proof.
  apply (cumulative_returns_are_price_ratios false two_quotes).
  - repeat constructor.
  - repeat constructor; simpl; lra.
  - discriminate.
Defined.

(* ================================================================= *)
(** ** Series with the same labels *)

Lemma labels_eqb_refl (l : list string) : labels_eqb l l = true.
Proof. unfold labels_eqb. now destruct (list_eq_dec string_dec l l). Qed.

Lemma union_labels_same (l : list string) (n : nat) :
  union_labels (repeat l (S n)) = l.
Proof.
  cbn [repeat union_labels].
  assert (H : forallb (labels_eqb l) (repeat l n) = true).
  { induction n; simpl; [reflexivity|]. now rewrite labels_eqb_refl. }
  now rewrite H.
Qed.

Lemma align_own (s : list (string * float)) : align (map fst s) s = map snd s.
Proof. unfold align. now rewrite labels_eqb_refl. Qed.

Lemma combine_fst_snd {A B : Type} (l : list (A * B)) :
  combine (map fst l) (map snd l) = l.
Proof. induction l as [|[a b] l IH]; simpl; congruence. Qed.

(** Between two series with the same labels an operation acts cell by
    cell. *)
Lemma series_binop_same (f : float -> float -> float) (a b : list (string * float)) :
  map fst a = map fst b ->
  series_binop f a b = map2 (fun x y : string * float => (fst x, f (snd x) (snd y))) a b.
Proof.
  intros H. unfold series_binop. rewrite <- H.
  change [map fst a; map fst a] with (repeat (map fst a) 2).
  rewrite union_labels_same, align_own. rewrite H at 2. rewrite align_own.
  clear - H. revert b H. induction a as [|x a IH]; intros [|y b] H; simpl in *;
    try discriminate; [reflexivity|].
  injection H as Hk Ht. f_equal. now apply IH.
Qed.

(** A table built from series that all carry the labels [l]. *)
Lemma frame_of_series_same (l : list string) (cols : list (string * list (string * float))) :
  cols <> [] -> Forall (fun c => map fst (snd c) = l) cols ->
  frame_of_series cols
  = mkLabelFrame l (map (fun c : string * list (string * float) =>
                           (fst c, map snd (snd c))) cols).
Proof.
  intros Hne H. unfold frame_of_series.
  assert (Hl : map (fun c : string * list (string * float) => map fst (snd c)) cols
               = repeat l (length cols)).
  { clear Hne. induction H as [|c cols Hc _ IH]; simpl; congruence. }
  rewrite Hl. destruct cols as [|c0 cols0] eqn:E; [contradiction|]. rewrite <- E in *.
  replace (length cols) with (S (length cols0)) by (rewrite E; reflexivity).
  rewrite union_labels_same. f_equal.
  apply map_ext_in. intros c Hc. f_equal.
  rewrite Forall_forall in H. rewrite <- (H c Hc). apply align_own.
Qed.

(* ================================================================= *)
(** ** The two modules on the same prices *)

(** The first and the last price of a column with [S n] rows. *)
Lemma period_return_quoted (prices rets : DataFrame) (n : nat) :
  nrows prices = S n ->
  Geography.period_return (Geography.mkGeography prices rets)
  = Ok (map (fun c : Column =>
               (fst c, fsub (fdiv (cell n (snd c)) (cell 0 (snd c))) (Fin 1)))
            (data prices)).
Proof.
  intros E. unfold Geography.period_return, iloc_last, iloc_first.
  cbn [Geography.prices]. rewrite E. cbn [bind]. f_equal.
  rewrite series_binop_same by (now rewrite !map_map).
  rewrite map2_map_map. unfold series_map. rewrite map_map. reflexivity.
Qed.

(** The total return of a column of changes of quoted prices. *)
Lemma total_return_changes (x : float) (t : list float) (m : nat) :
  Forall quoted (x :: t) -> length t = S m ->
  total_return (changes x t) = fsub (fdiv (cell m t) x) (Fin 1).
Proof.
  intros Hq Hl.
  rewrite <- (cumulative_last_col m (changes x t)).
  - rewrite (cumprod_changes x t Hq), map_map.
    rewrite (cell_map (fun p => fsub (fdiv p x) (Fin 1))) by lia. reflexivity.
  - exact (changes_quoted x t Hq).
  - now rewrite length_changes.
Qed.

(** X7: for a table of quoted prices with at least two rows and one
    column, the total return that the analyzer reads off the last row
    of its cumulative returns is, region by region, the last price
    over the first price minus 1 that the geography module computes. *)
Theorem total_return_agrees (pad : bool) (prices rets : DataFrame) :
  wf prices -> all_quoted prices -> data prices <> [] -> (2 <= nrows prices)%nat ->
  iloc_last (Analysis.calculate_cumulative_returns
               (Analysis.init (Factors.get_returns pad prices)))
  = Geography.period_return (Geography.mkGeography prices rets).
Proof.
  intros Hwf Hq Hd Hn.
  destruct (nrows prices) as [|[|m]] eqn:E; try lia.
  rewrite (period_return_quoted prices rets (S m) E).
  rewrite (get_returns_quoted pad prices Hwf Hq Hd).
  assert (Hl : length (tl (index prices)) = S m).
  { unfold nrows in E. destruct (index prices); simpl in *; lia. }
  unfold iloc_last, Analysis.calculate_cumulative_returns, Analysis.init, nrows.
  cbn [Analysis.returns index data]. rewrite Hl. f_equal.
  rewrite !map_map. cbn [fst snd]. apply map_ext_in. intros c Hc. f_equal.
  unfold wf in Hwf. rewrite Forall_forall in Hwf. specialize (Hwf c Hc).
  unfold all_quoted in Hq. rewrite Forall_forall in Hq. specialize (Hq c Hc).
  rewrite E in Hwf. destruct (snd c) as [|x t]; [discriminate|].
  cbn [length] in Hwf. injection Hwf as Hwf. cbn [hd tl].
  rewrite (cumulative_last_col m (changes x t)).
  - now rewrite (total_return_changes x t m Hq Hwf).
  - exact (changes_quoted x t Hq).
  - now rewrite length_changes.
Qed.

Lemma total_return_agrees_witness :
  iloc_last (Analysis.calculate_cumulative_returns
               (Analysis.init (Factors.get_returns false two_quotes)))
  = Geography.period_return
      (Geography.mkGeography two_quotes (Factors.get_returns false two_quotes)).
Proof.
  apply total_return_agrees.
  - repeat constructor.
  - repeat constructor; simpl; lra.
  - discriminate.
  - unfold nrows, two_quotes. simpl. lia.
Defined.

Lemma prod_growth (c : list float) :
  complete c -> fsub (prod (map (fadd (Fin 1)) c)) (Fin 1) = total_return c.
Proof.
  intros H. unfold total_return, growth_product, prod.
  now rewrite (map_fill_complete (Fin 1) _ (growth_complete c H)).
Qed.

Lemma map2_map_l {A B C D : Type} (f : B -> C -> D) (g : A -> B)
      (l : list A) (m : list C) :
  map2 f (map g l) m = map2 (fun x y => f (g x) y) l m.
Proof.
  revert m. induction l as [|x l IH]; intros [|y m]; simpl; auto.
  now rewrite IH.
Qed.

Lemma map_fst_map2 {A B : Type} (f : string * A -> string * B -> float)
      (l : list (string * A)) (m : list (string * B)) :
  length m = length l ->
  map fst (map2 (fun x y => (fst x, f x y)) l m) = map fst l.
Proof.
  revert m. induction l as [|x l IH]; intros [|y m] H; simpl in *;
    try discriminate; [reflexivity|].
  f_equal. apply IH. lia.
Qed.

(** The total returns that the analyzer compounds from the changes of
    quoted prices, labelled by the columns. *)
Lemma analyzer_total_returns (pad : bool) (prices : DataFrame) (m : nat) :
  wf prices -> all_quoted prices -> data prices <> [] -> nrows prices = S (S m) ->
  reduce (fun c => fsub (prod (map (fadd (Fin 1)) c)) (Fin 1))
         (Factors.get_returns pad prices)
  = map (fun c : Column =>
           (fst c, fsub (fdiv (cell (S m) (snd c)) (cell 0 (snd c))) (Fin 1)))
        (data prices).
Proof.
  intros Hwf Hq Hd E.
  rewrite (get_returns_quoted pad prices Hwf Hq Hd).
  unfold reduce. cbn [data]. rewrite map_map. cbn [fst snd].
  apply map_ext_in. intros c Hc. f_equal.
  unfold wf in Hwf. rewrite Forall_forall in Hwf. specialize (Hwf c Hc).
  unfold all_quoted in Hq. rewrite Forall_forall in Hq. specialize (Hq c Hc).
  rewrite E in Hwf. destruct (snd c) as [|x t]; [discriminate|].
  cbn [length] in Hwf. injection Hwf as Hwf. cbn [hd tl].
  rewrite (prod_growth _ (changes_quoted x t Hq)).
  now rewrite (total_return_changes x t m Hq Hwf).
Qed.

(** X8, in exact arithmetic: on a table of quoted prices with at least
    two rows and one column, and with [trading_days] not zero, the
    geography module and the performance analyzer agree: the "Sharpe
    Ratio" and the "Annualized Return" columns of
    [calculate_risk_adjusted_returns] are the series that
    [calculate_sharpe_ratio] and [calculate_annualized_return] give on
    the returns of the same prices, and the rows of the table are
    labelled by the columns.  The two modules reach the total return by
    different operations (a product of growth factors, a ratio of two
    prices), so on doubles their figures agree up to rounding only. *)
Theorem geography_sharpe_agrees (pad : bool) (prices : DataFrame)
        (risk_free_rate : R) (trading_days : Z) :
  wf prices -> all_quoted prices -> data prices <> [] -> (2 <= nrows prices)%nat ->
  trading_days <> 0%Z ->
  let rets := Factors.get_returns pad prices in
  exists fr sharpe ann,
    Geography.calculate_risk_adjusted_returns (Geography.mkGeography prices rets)
                                              risk_free_rate trading_days = Ok fr
    /\ Analysis.calculate_sharpe_ratio (Analysis.init rets) risk_free_rate trading_days
       = Ok sharpe
    /\ Analysis.calculate_annualized_return (Analysis.init rets) trading_days = Ok ann
    /\ row_labels fr = columns prices
    /\ field fr "Sharpe Ratio" = sharpe
    /\ field fr "Annualized Return" = ann.
Proof.
  intros Hwf Hq Hd Hn Htd rets.
  destruct (nrows prices) as [|[|m]] eqn:E; try lia.
  assert (Hrows : nrows rets = S m).
  { unfold rets, nrows. rewrite (get_returns_index pad prices Hwf Hq Hd).
    unfold nrows in E. destruct (index prices); simpl in *; lia. }
  assert (Hcols : map fst (data rets) = map fst (data prices)).
  { exact (get_returns_columns pad prices). }
  unfold Geography.calculate_risk_adjusted_returns, Analysis.calculate_sharpe_ratio,
    Analysis.calculate_annualized_return.
  cbn [Geography.returns Geography.prices Analysis.returns Analysis.init].
  subst rets.
  rewrite (analyzer_total_returns pad prices m Hwf Hq Hd E).
  set (rets := Factors.get_returns pad prices) in *. rewrite Hrows.
  rewrite (period_return_quoted prices rets (S m) E).
  unfold Analysis.py_div.
  destruct (Req_dec_T (IZR trading_days) 0) as [Hz|_].
  { exfalso. apply Htd. now apply eq_IZR_R0. }
  cbn [bind].
  assert (Hpos : (0 < INR (S m))%R) by (apply lt_0_INR; lia).
  destruct (Req_dec_T (INR (S m) / IZR trading_days) 0) as [Hy|_].
  { exfalso. unfold Rdiv in Hy. apply Rmult_integral in Hy. destruct Hy as [Hy|Hy].
    - lra.
    - revert Hy. apply Rinv_neq_0_compat. intros Hz. apply Htd. now apply eq_IZR_R0. }
  cbn [bind].
  set (e := (1 / (INR (S m) / IZR trading_days))%R).
  set (T := map (fun c : Column =>
                   (fst c, fsub (fdiv (cell (S m) (snd c)) (cell 0 (snd c))) (Fin 1)))
                (data prices)).
  set (A := series_map (fun x => fsub (fpow (fadd (Fin 1) x) e) (Fin 1)) T).
  set (V := reduce (fun c => fmul (std c) (fsqrt (Fin (IZR trading_days)))) rets).
  change (map (fun kv : string * float =>
                 (fst kv, fsub (fpow (fadd (Fin 1) (snd kv)) e) (Fin 1))) T) with A.
  change (Analysis.calculate_annualized_volatility
            {| Analysis.returns := rets;
               Analysis.prices := Analysis._returns_to_prices rets (Fin 100) |}
            trading_days) with V.
  assert (HA : map fst A = map fst (data prices)).
  { unfold A, series_map, T. now rewrite !map_map. }
  assert (HV : map fst V = map fst (data prices)).
  { unfold V, reduce. rewrite map_map. exact Hcols. }
  assert (Hlen : length V = length A).
  { rewrite <- (length_map fst V), <- (length_map fst A). congruence. }
  assert (HS : series_binop fdiv (series_map (fun x => fsub x (Fin risk_free_rate)) A) V
               = map2 (fun r v : string * float =>
                         (fst r, fdiv (fsub (snd r) (Fin risk_free_rate)) (snd v))) A V).
  { rewrite series_binop_same.
    - unfold series_map. now rewrite map2_map_l.
    - unfold series_map. rewrite map_map. cbn [fst].
      change (map fst A = map fst V). congruence. }
  rewrite HS.
  set (S := map2 (fun r v : string * float =>
                    (fst r, fdiv (fsub (snd r) (Fin risk_free_rate)) (snd v))) A V).
  assert (HSl : map fst S = map fst (data prices)).
  { unfold S. rewrite (map_fst_map2 (fun r v => fdiv (fsub (snd r) (Fin risk_free_rate)) (snd v)))
      by exact Hlen. exact HA. }
  assert (HRl : map fst (series_binop fdiv A V) = map fst (data prices)).
  { rewrite series_binop_same by congruence.
    rewrite (map_fst_map2 (fun r v => fdiv (snd r) (snd v))) by exact Hlen. exact HA. }
  rewrite (frame_of_series_same (map fst (data prices))).
  2:{ discriminate. }
  2:{ repeat constructor; cbn [snd]; assumption. }
  eexists. exists S. exists A. split; [reflexivity|]. split; [reflexivity|].
  split; [reflexivity|]. split; [reflexivity|].
  unfold field. cbn [fields row_labels map fst snd dict_get String.eqb Ascii.eqb Bool.eqb].
  split.
  - rewrite <- HSl. apply combine_fst_snd.
  - rewrite <- HA. apply combine_fst_snd.
Qed.

Lemma geography_sharpe_agrees_witness :
  exists fr sharpe,
    Geography.calculate_risk_adjusted_returns
      (Geography.mkGeography two_quotes (Factors.get_returns false two_quotes))
      0.02 252 = Ok fr
    /\ Analysis.calculate_sharpe_ratio
         (Analysis.init (Factors.get_returns false two_quotes)) 0.02 252 = Ok sharpe
    /\ field fr "Sharpe Ratio" = sharpe.
Proof.
  destruct (geography_sharpe_agrees false two_quotes 0.02 252)
    as [fr [sharpe [ann [H1 [H2 [_ [_ [H5 _]]]]]]]].
  - repeat constructor.
  - repeat constructor; simpl; lra.
  - discriminate.
  - unfold nrows, two_quotes. simpl. lia.
  - discriminate.
  - exists fr, sharpe. tauto.
Defined.

(* ================================================================= *)
(** ** Relative performance *)

Lemma rebase_first (x : float) :
  (quoted x -> fmul (fdiv x x) (Fin 100) = Fin 100)
  /\ (~ quoted x -> fmul (fdiv x x) (Fin 100) = NaN).
Proof.
  destruct x as [| | |x]; cbn [quoted fdiv fmul]; try tauto. split.
  - intros H. destruct (Req_dec_T x 0); [contradiction|]. cbn. f_equal. now field.
  - intros H. destruct (Req_dec_T x 0) as [->|Hx]; [|contradiction].
    now rewrite Rsign_zero.
Qed.

(** X9: [calculate_relative_performance] raises [IndexError] on a table
    without rows; otherwise it keeps the dates and the columns, and the
    first row of its result holds 100 in every column whose first price
    is a finite nonzero number and a missing cell in every other
    column. *)
Theorem relative_performance_first_row (self : Geography.GeographyAnalyzer) :
  (nrows (Geography.prices self) = O ->
   Geography.calculate_relative_performance self = Raise IndexError)
  /\ (nrows (Geography.prices self) <> O ->
      exists rel,
        Geography.calculate_relative_performance self = Ok rel
        /\ index rel = index (Geography.prices self)
        /\ columns rel = columns (Geography.prices self)
        /\ Forall2 (fun (c r : Column) =>
                      fst r = fst c
                      /\ length (snd r) = length (snd c)
                      /\ (quoted (cell 0 (snd c)) -> cell 0 (snd r) = Fin 100)
                      /\ (~ quoted (cell 0 (snd c)) -> cell 0 (snd r) = NaN))
                   (data (Geography.prices self)) (data rel)).
Proof.
  unfold Geography.calculate_relative_performance, iloc_first. split.
  - intros ->. reflexivity.
  - intros Hn. destruct (nrows (Geography.prices self)); [contradiction|].
    cbn [bind]. eexists. split; [reflexivity|]. cbn [index data].
    rewrite map2_map_r. cbn [fst snd].
    split; [reflexivity|]. split.
    { unfold columns. cbn [data]. now rewrite map_map. }
    induction (data (Geography.prices self)) as [|c cs IH]; cbn [map]; constructor;
      [|exact IH].
    cbn [fst snd]. split; [reflexivity|]. split; [apply length_map|].
    destruct (snd c) as [|x t].
    + cbn. tauto.
    + cbn [map cell nth]. apply rebase_first.
Qed.

Lemma relative_performance_first_row_witness :
  nrows (Geography.prices two_regions) <> O
  /\ exists rel,
       Geography.calculate_relative_performance two_regions = Ok rel
       /\ index rel = index (Geography.prices two_regions)
       /\ columns rel = columns (Geography.prices two_regions)
       /\ Forall2 (fun (c r : Column) =>
                     fst r = fst c
                     /\ length (snd r) = length (snd c)
                     /\ (quoted (cell 0 (snd c)) -> cell 0 (snd r) = Fin 100)
                     /\ (~ quoted (cell 0 (snd c)) -> cell 0 (snd r) = NaN))
                  (data (Geography.prices two_regions)) (data rel).
Proof.
  split; [discriminate|].
  apply (proj2 (relative_performance_first_row two_regions)). discriminate.
Defined.

(* ================================================================= *)
(** ** Best and worst regions *)

Lemma fltb_true_fle (a b : float) : fltb a b = true -> fle a b.
Proof.
  destruct a as [| | |x], b as [| | |y]; cbn; try discriminate; try tauto.
  destruct (Rlt_dec x y); [lra|discriminate].
Qed.

Lemma fltb_false_fle (a b : float) :
  is_nan a = false -> is_nan b = false -> fltb a b = false -> fle b a.
Proof.
  destruct a as [| | |x], b as [| | |y]; cbn; try discriminate; try tauto.
  destruct (Rlt_dec x y); [discriminate|lra].
Qed.

Lemma fle_trans (a b c : float) : fle a b -> fle b c -> fle a c.
Proof.
  destruct a as [| | |x], b as [| | |y], c as [| | |z]; cbn; try tauto. lra.
Qed.

Lemma fle_refl (a : float) : is_nan a = false -> fle a a.
Proof. destruct a; cbn; try discriminate; try tauto. lra. Qed.

(** What [arg_best] returns under an order that [better] decides. *)
Lemma arg_best_spec (better : float -> float -> bool) (leq : float -> float -> Prop) :
  (forall x b, better x b = true -> leq b x) ->
  (forall x b, is_nan x = false -> is_nan b = false -> better x b = false -> leq x b) ->
  (forall a b c, leq a b -> leq b c -> leq a c) ->
  (forall a, is_nan a = false -> leq a a) ->
  forall (l : list (string * float)) (start : string * float),
    Forall (fun kv => is_nan (snd kv) = false) (start :: l) ->
    In (arg_best better start l) (start :: l)
    /\ forall kv, In kv (start :: l) -> leq (snd kv) (snd (arg_best better start l)).
Proof.
  intros Ht Hf Htr Hr l. induction l as [|kv t IH]; intros start Hall.
  - cbn [arg_best]. split; [now left|]. intros kv [<-|[]].
    apply Hr. now inversion Hall.
  - cbn [arg_best]. inversion Hall as [|? ? Hs Hrest]; subst.
    inversion Hrest as [|? ? Hkv Ht']; subst.
    destruct (better (snd kv) (snd start)) eqn:E.
    + destruct (IH kv Hrest) as [Hin Hle]. split; [now right|].
      intros kv' [<-|Hin'].
      * apply (Htr _ (snd kv)); [now apply Ht|]. apply Hle. now left.
      * now apply Hle.
    + destruct (IH start (Forall_cons _ Hs Ht')) as [Hin Hle]. split.
      * destruct Hin as [<-|Hin]; [now left|now right; right].
      * intros kv' [<-|[<-|Hin']].
        -- apply Hle. now left.
        -- apply (Htr _ (snd start)); [now apply Hf|]. apply Hle. now left.
        -- apply Hle. now right.
Qed.

Lemma map_fill_present (v : float) (s : list (string * float)) :
  Forall (fun kv => is_nan (snd kv) = false) s ->
  map (fun kv : string * float => (fst kv, fill v (snd kv))) s = s.
Proof.
  induction 1 as [|[k x] t Hx _ IH]; [reflexivity|]. cbn [snd] in Hx.
  cbn [map fst snd]. unfold fill at 1. rewrite Hx. f_equal. exact IH.
Qed.

Lemma filter_all_present (s : list (string * float)) :
  Forall (fun kv => is_nan (snd kv) = false) s ->
  filter (fun kv : string * float => negb (is_nan (snd kv))) s = s.
Proof.
  induction 1 as [|kv t Hx _ IH]; [reflexivity|].
  cbn [filter]. rewrite Hx. cbn [negb]. now rewrite IH.
Qed.

Lemma idx_best_present (pandas3 : bool) (better : float -> float -> bool)
      (worst_value : float) (what : string) (kv : string * float)
      (t : list (string * float)) :
  Forall (fun kv => is_nan (snd kv) = false) (kv :: t) ->
  idx_best pandas3 better worst_value what (kv :: t)
  = Done (fst (arg_best better kv t)).
Proof.
  intros Hall. unfold idx_best.
  rewrite (map_fill_present _ _ Hall), (filter_all_present _ Hall).
  inversion Hall as [|? ? Hkv _]; subst. cbn [forallb]. rewrite Hkv. cbn [andb].
  now destruct pandas3.
Qed.

Lemma dict_get_NoDup (s : list (string * float)) (kv : string * float) :
  NoDup (map fst s) -> In kv s -> dict_get s (fst kv) = Some (snd kv).
Proof.
  induction s as [|[k v] t IH]; intros Hnd Hin; [destruct Hin|].
  cbn [map fst] in Hnd. inversion Hnd as [|? ? Hnot Hnd']; subst.
  cbn [dict_get]. destruct Hin as [<-|Hin].
  - cbn [fst snd]. now rewrite String.eqb_refl.
  - destruct (String.eqb k (fst kv)) eqn:E.
    + apply String.eqb_eq in E. subst k. exfalso. apply Hnot.
      apply in_map_iff. now exists kv.
    + now apply IH.
Qed.

(** X10: on a table of [S n] rows with at least one column, distinct
    column names and no missing return, [get_best_worst_performers]
    names two columns of the table, reports for each its own return in
    percent, and every region's return lies between the worst and the
    best one. *)
Theorem best_worst_performers_bound (pandas3 : bool)
        (self : Geography.GeographyAnalyzer) (n : nat) :
  nrows (Geography.prices self) = S n ->
  data (Geography.prices self) <> [] ->
  NoDup (columns (Geography.prices self)) ->
  (forall c, In c (data (Geography.prices self)) ->
             is_nan (percent_return n (snd c)) = false) ->
  exists p,
    Geography.get_best_worst_performers pandas3 self = Done p
    /\ In (Geography.best p, Geography.best_return p)
          (map (fun c : Column => (fst c, percent_return n (snd c)))
               (data (Geography.prices self)))
    /\ In (Geography.worst p, Geography.worst_return p)
          (map (fun c : Column => (fst c, percent_return n (snd c)))
               (data (Geography.prices self)))
    /\ forall c, In c (data (Geography.prices self)) ->
                 fle (Geography.worst_return p) (percent_return n (snd c))
                 /\ fle (percent_return n (snd c)) (Geography.best_return p).
Proof.
  intros E Hne Hnd Hpresent. destruct self as [prices rets]. cbn [Geography.prices] in *.
  unfold Geography.get_best_worst_performers.
  rewrite (period_return_quoted prices rets n E). cbn [Geography.lift].
  unfold series_map. rewrite map_map. cbn [fst snd].
  change (map (fun x : Column =>
                 (fst x, fmul (fsub (fdiv (cell n (snd x)) (cell 0 (snd x))) (Fin 1)) (Fin 100)))
              (data prices))
    with (map (fun c : Column => (fst c, percent_return n (snd c))) (data prices)).
  set (total := map (fun c : Column => (fst c, percent_return n (snd c))) (data prices)).
  assert (Hall : Forall (fun kv : string * float => is_nan (snd kv) = false) total).
  { apply Forall_forall. intros kv Hin. apply in_map_iff in Hin.
    destruct Hin as [c [<- Hc]]. cbn [snd]. now apply Hpresent. }
  assert (Hkeys : NoDup (map fst total)).
  { unfold total. rewrite map_map. exact Hnd. }
  destruct total as [|kv t] eqn:Et.
  { exfalso. subst total. destruct (data prices); [now apply Hne|discriminate]. }
  unfold idxmax, idxmin.
  rewrite !(idx_best_present _ _ _ _ kv t Hall).
  destruct (arg_best_spec (fun x b => fltb b x) fle) with (l := t) (start := kv)
    as [Hbin Hble]; try exact Hall.
  { intros x b. apply fltb_true_fle. }
  { intros x b Hx Hb Hf. now apply fltb_false_fle. }
  { exact fle_trans. }
  { exact fle_refl. }
  destruct (arg_best_spec (fun x b => fltb x b) (fun a b => fle b a)) with (l := t) (start := kv)
    as [Hwin Hwle]; try exact Hall.
  { intros x b. apply fltb_true_fle. }
  { intros x b Hx Hb Hf. now apply fltb_false_fle. }
  { intros a b c H1 H2. exact (fle_trans _ _ _ H2 H1). }
  { exact fle_refl. }
  eexists. split; [reflexivity|]. cbn [Geography.best Geography.best_return
                                        Geography.worst Geography.worst_return].
  unfold lookup_label.
  rewrite (dict_get_NoDup _ _ Hkeys Hbin), (dict_get_NoDup _ _ Hkeys Hwin).
  split; [now rewrite <- surjective_pairing|].
  split; [now rewrite <- surjective_pairing|].
  intros c Hc.
  assert (Hin : In (fst c, percent_return n (snd c)) (kv :: t)).
  { rewrite <- Et. unfold total. apply in_map_iff. now exists c. }
  split; [exact (Hwle _ Hin)|exact (Hble _ Hin)].
Qed.

Lemma two_regions_returns_present (c : Column) :
  In c (data (Geography.prices two_regions)) ->
  is_nan (percent_return 1 (snd c)) = false.
Proof.
  cbn [two_regions Geography.prices data In].
  intros [<-|[<-|[]]]; unfold percent_return; cbn [snd cell nth];
    rewrite fdiv_fin by lra; reflexivity.
Qed.

Lemma best_worst_performers_bound_witness :
  exists p,
    Geography.get_best_worst_performers true two_regions = Done p
    /\ In (Geography.best p, Geography.best_return p)
          (map (fun c : Column => (fst c, percent_return 1 (snd c)))
               (data (Geography.prices two_regions)))
    /\ In (Geography.worst p, Geography.worst_return p)
          (map (fun c : Column => (fst c, percent_return 1 (snd c)))
               (data (Geography.prices two_regions)))
    /\ forall c, In c (data (Geography.prices two_regions)) ->
                 fle (Geography.worst_return p) (percent_return 1 (snd c))
                 /\ fle (percent_return 1 (snd c)) (Geography.best_return p).
Proof.
  apply (best_worst_performers_bound true two_regions 1).
  - reflexivity.
  - discriminate.
  - cbn. repeat constructor; cbn; intuition discriminate.
  - exact two_regions_returns_present.
Defined.

(** X11: [get_best_worst_performers] fails with [IndexError] on a table
    without rows, and with a [ValueError] on a table that has rows but
    no column. *)
Theorem best_worst_performers_failures (pandas3 : bool)
        (self : Geography.GeographyAnalyzer) :
  (nrows (Geography.prices self) = O ->
   Geography.get_best_worst_performers pandas3 self = Fails (Builtin IndexError))
  /\ (nrows (Geography.prices self) <> O ->
      data (Geography.prices self) = [] ->
      exists msg,
        Geography.get_best_worst_performers pandas3 self
        = Fails (Builtin (ValueError msg))).
Proof.
  destruct self as [prices rets]. cbn [Geography.prices]. split.
  - intros E. unfold Geography.get_best_worst_performers, Geography.period_return,
      iloc_last. cbn [Geography.prices]. rewrite E. reflexivity.
  - intros Hn Hd. destruct (nrows prices) as [|n] eqn:E; [contradiction|].
    unfold Geography.get_best_worst_performers.
    rewrite (period_return_quoted prices rets n E), Hd. eexists. reflexivity.
Qed.

Lemma best_worst_performers_failures_witness :
  Geography.get_best_worst_performers true
    (Geography.mkGeography (mkDataFrame [] []) (mkDataFrame [] []))
  = Fails (Builtin IndexError)
  /\ exists msg,
       Geography.get_best_worst_performers true
         (Geography.mkGeography (mkDataFrame [737060%Z] []) (mkDataFrame [] []))
       = Fails (Builtin (ValueError msg)).
Proof.
  split.
  - apply (proj1 (best_worst_performers_failures true _)). reflexivity.
  - apply (proj2 (best_worst_performers_failures true _)); [discriminate|reflexivity].
Defined.

(* ================================================================= *)
(** ** Annualized figures *)

Lemma py_div_years (n : nat) (trading_days : Z) :
  trading_days <> 0%Z -> n <> O ->
  exists e, (x <- Analysis.py_div (INR n) (IZR trading_days) ;; Analysis.py_div 1 x)
            = Ok e.
Proof.
  intros Htd Hn. unfold Analysis.py_div.
  destruct (Req_dec_T (IZR trading_days) 0) as [Hz|Hz].
  { exfalso. apply Htd. now apply eq_IZR_R0. }
  cbn [bind].
  destruct (Req_dec_T (INR n / IZR trading_days) 0) as [Hy|_]; [|eauto].
  exfalso. unfold Rdiv in Hy. apply Rmult_integral in Hy. destruct Hy as [Hy|Hy].
  - pose proof (INR_pos n Hn). lra.
  - revert Hy. now apply Rinv_neq_0_compat.
Qed.





Lemma Int_part_one : Int_part 1 = 1%Z.
Proof. change 1%R with (INR 1). now rewrite Int_part_INR. Qed.

Lemma fpow_one (a : float) : fpow a 1 = a.
Proof.
  unfold fpow. destruct (Req_dec_T 1 0) as [H|_]; [lra|].
  destruct a as [| | |b].
  - reflexivity.
  - destruct (Rlt_dec 0 1); [reflexivity|lra].
  - destruct (Rlt_dec 0 1); [|lra]. unfold is_integer. rewrite Int_part_one.
    destruct (Req_dec_T 1 1); [reflexivity|lra].
  - unfold Rsign. destruct (Rlt_dec b 0) as [Hn|Hn].
    + unfold is_integer. rewrite Int_part_one.
      destruct (Req_dec_T 1 1); [|lra]. f_equal. apply powerRZ_1.
    + destruct (Rlt_dec 0 b) as [Hp|Hp].
      * f_equal. now apply Rpower_1.
      * destruct (Rlt_dec 0 1); [|lra]. f_equal. lra.
Qed.

Lemma fadd_fsub_one (a : float) : fadd (Fin 1) (fsub a (Fin 1)) = a.
Proof. destruct a as [| | |x]; try reflexivity. cbn. f_equal. lra. Qed.

(** X13: over exactly one year of rows, that is when [trading_days] is
    the number of rows of the return table, the annualized return of
    every column is its total return, the product of its growth factors
    minus 1. *)
Theorem annualized_return_one_year (self : Analysis.PerformanceAnalyzer) :
  nrows (Analysis.returns self) <> O ->
  Analysis.calculate_annualized_return self (Z.of_nat (nrows (Analysis.returns self)))
  = Ok (reduce (fun c => fsub (prod (map (fadd (Fin 1)) c)) (Fin 1))
               (Analysis.returns self)).
Proof.
  intros Hn. unfold Analysis.calculate_annualized_return, Analysis.py_div.
  rewrite <- INR_IZR_INZ.
  pose proof (INR_pos _ Hn) as Hpos.
  destruct (Req_dec_T (INR (nrows (Analysis.returns self))) 0) as [Hz|_]; [lra|].
  cbn [bind].
  replace (INR (nrows (Analysis.returns self)) / INR (nrows (Analysis.returns self)))%R
    with 1%R by (field; lra).
  destruct (Req_dec_T 1 0) as [Hz|_]; [lra|]. cbn [bind].
  replace (1 / 1)%R with 1%R by lra. f_equal. unfold reduce. rewrite map_map.
  apply map_ext. intros c. cbn [fst snd]. now rewrite fpow_one, fadd_fsub_one.
Qed.

Lemma annualized_return_one_year_witness :
  Analysis.calculate_annualized_return (Analysis.init flat_returns) 2
  = Ok (reduce (fun c => fsub (prod (map (fadd (Fin 1)) c)) (Fin 1)) flat_returns).
Proof.
  apply (annualized_return_one_year (Analysis.init flat_returns)). discriminate.
Defined.


(* ================================================================= *)
(** ** The Sortino ratio *)





(* ================================================================= *)
(** ** Rolling metrics *)

Lemma nth_map_in {A B : Type} (f : A -> B) (l : list A) (i : nat) (d : B) (d' : A) :
  (i < length l)%nat -> nth i (map f l) d = f (nth i l d').
Proof.
  revert i. induction l as [|x l IH]; intros [|i] H; cbn [length map nth] in *;
    try lia; [reflexivity|]. apply IH. lia.
Qed.

Lemma rolling_col_warm_up (w : nat) (agg : list float -> float) (c : list float) (i : nat) :
  (i + 1 < w)%nat -> cell i (rolling_col w agg c) = NaN.
Proof.
  intros Hi. unfold cell, rolling_col.
  destruct (Nat.lt_ge_cases i (length c)) as [Hlt|Hge].
  - rewrite (nth_map_in _ _ i NaN O) by (now rewrite length_seq).
    rewrite seq_nth by exact Hlt. cbn [Nat.add].
    unfold window_at. destruct (Nat.leb_spec w (i + 1)); [lia|reflexivity].
  - apply nth_overflow. now rewrite length_map, length_seq.
Qed.

Lemma length_rolling_col (w : nat) (agg : list float -> float) (c : list float) :
  length (rolling_col w agg c) = length c.
Proof. unfold rolling_col. now rewrite length_map, length_seq. Qed.

Lemma fmul_nan_l (a : float) : fmul NaN a = NaN.
Proof. now destruct a. Qed.

Lemma cell_map2_nan (f : float -> float -> float) (a b : list float) (i : nat) :
  f NaN NaN = NaN -> cell i a = NaN -> cell i b = NaN -> cell i (map2 f a b) = NaN.
Proof.
  intros Hf. unfold cell. revert b i.
  induction a as [|x a IH]; intros [|y b] [|i] Ha Hb; cbn [map2 nth] in *;
    try reflexivity.
  - now rewrite Ha, Hb.
  - now apply IH.
Qed.

Lemma cell_map_nan (f : float -> float) (a : list float) (i : nat) :
  f NaN = NaN -> cell i a = NaN -> cell i (map f a) = NaN.
Proof.
  intros Hf. unfold cell. revert i.
  induction a as [|x a IH]; intros [|i] Ha; cbn [map nth] in *; try reflexivity.
  - now rewrite Ha.
  - now apply IH.
Qed.

(** X16: for one of the three known metrics and a window that is not
    negative, [get_rolling_metrics] returns a table with the dates and
    the columns of the returns, one cell per date in every column, and
    every cell of the rows before row [window - 1] is missing. *)
Theorem rolling_metrics_warm_up (self : Analysis.PerformanceAnalyzer)
        (window : Z) (metric : string) :
  In metric known_metrics -> (0 <= window)%Z ->
  exists out,
    Analysis.get_rolling_metrics self window metric = Ok out
    /\ index out = index (Analysis.returns self)
    /\ Forall2 (fun c r : Column =>
                  fst r = fst c
                  /\ length (snd r) = length (snd c)
                  /\ forall i, (Z.of_nat i + 1 < window)%Z -> cell i (snd r) = NaN)
               (data (Analysis.returns self)) (data out).
Proof.
  intros Hm Hw. unfold Analysis.get_rolling_metrics, rolling.
  destruct (Z.ltb_spec window 0) as [Hneg|_]; [lia|]. cbn [bind].
  assert (Hwarm : forall i, (Z.of_nat i + 1 < window)%Z -> (i + 1 < Z.to_nat window)%nat)
    by (intros i Hi; lia).
  destruct Hm as [<-|[<-|[<-|[]]]]; cbn [String.eqb Ascii.eqb Bool.eqb];
    (eexists; split; [reflexivity|]; split; [reflexivity|]);
    unfold map_frame, map2_frame; cbn [index data]; rewrite ?map_map, ?map2_map_map;
    cbn [fst snd];
    (induction (data (Analysis.returns self)) as [|c cs IH]; cbn [map]; constructor;
     [|exact IH]); cbn [fst snd]; (split; [reflexivity|]).
  - split; [now rewrite length_map, length_rolling_col|]. intros i Hi.
    apply cell_map_nan; [reflexivity|]. apply rolling_col_warm_up. now apply Hwarm.
  - split; [now rewrite length_map, length_rolling_col|]. intros i Hi.
    apply cell_map_nan; [reflexivity|]. apply rolling_col_warm_up. now apply Hwarm.
  - split.
    + rewrite length_map2, !length_map, !length_rolling_col. apply Nat.min_id.
    + intros i Hi. apply cell_map2_nan; [reflexivity| |];
        (apply cell_map_nan; [reflexivity|]); apply rolling_col_warm_up; now apply Hwarm.
Qed.

Lemma rolling_metrics_warm_up_witness :
  exists out,
    Analysis.get_rolling_metrics (Analysis.init flat_returns) 2 "sharpe" = Ok out
    /\ index out = index flat_returns
    /\ Forall2 (fun c r : Column =>
                  fst r = fst c
                  /\ length (snd r) = length (snd c)
                  /\ forall i, (Z.of_nat i + 1 < 2)%Z -> cell i (snd r) = NaN)
               (data flat_returns) (data out).
Proof.
  apply (rolling_metrics_warm_up (Analysis.init flat_returns) 2 "sharpe").
  - cbn. tauto.
  - lia.
Defined.

(* ================================================================= *)
(** ** The performance summary *)




(* ================================================================= *)
(** ** Drawdowns in the two modules *)

(** The dictionary of the loop of [analyze_drawdown_by_region] when the
    columns have distinct names. *)
Lemma fold_dict_set_nodup (f : Column -> float) (cols : list Column) :
  forall acc : list (string * float),
    NoDup (map fst acc ++ map fst cols) ->
    fold_left (fun d (c : Column) => dict_set d (fst c) (f c)) cols acc
    = acc ++ map (fun c : Column => (fst c, f c)) cols.
Proof.
  induction cols as [|c cols IH]; intros acc H.
  - cbn. now rewrite app_nil_r.
  - cbn [fold_left map]. rewrite dict_set_absent.
    + rewrite IH.
      * now rewrite <- app_assoc.
      * rewrite map_app. cbn [map]. rewrite <- app_assoc. exact H.
    + cbn [map] in H. apply NoDup_remove_2 in H. intros Hin. apply H.
      apply in_or_app. now left.
Qed.

Lemma drawdown_by_region_nodup (self : Geography.GeographyAnalyzer) :
  NoDup (columns (Geography.prices self)) ->
  Geography.analyze_drawdown_by_region self
  = map (fun c : Column => (fst c, min (Analysis.drawdown (snd c))))
        (data (Geography.prices self)).
Proof.
  intros H. unfold Geography.analyze_drawdown_by_region.
  now rewrite (fold_dict_set_nodup (fun c => min (Analysis.drawdown (snd c)))).
Qed.

Lemma fmax_scale (k : R) (m x : float) :
  (0 < k)%R -> m = NaN \/ positive m -> positive x ->
  fmax (fmul (Fin k) m) (fmul (Fin k) x) = fmul (Fin k) (fmax m x).
Proof.
  intros Hk [->|Hm] Hx.
  - destruct x; cbn in *; try tauto.
  - destruct m as [| | |m], x as [| | |x]; cbn in *; try tauto.
    f_equal. apply RmaxRmult. lra.
Qed.

Lemma positive_scale (k : R) (x : float) :
  (0 < k)%R -> positive x -> positive (fmul (Fin k) x).
Proof. intros Hk. destruct x; cbn; try tauto. intros Hx. nra. Qed.

(** A drawdown series does not depend on the unit of the prices. *)
Lemma drawdown_from_scale (k : R) (c : list float) :
  (0 < k)%R -> Forall positive c ->
  forall m : float,
    m = NaN \/ positive m ->
    map2 (fun p m => fdiv (fsub p m) m) (map (fmul (Fin k)) c)
         (expanding_max_from (fmul (Fin k) m) (map (fmul (Fin k)) c))
    = map2 (fun p m => fdiv (fsub p m) m) c (expanding_max_from m c).
Proof.
  intros Hk Hc. induction Hc as [|x c Hx Hc IH]; intros m Hm; [reflexivity|].
  cbn [map expanding_max_from map2].
  rewrite (finite_or_missing_positive x Hx).
  rewrite (finite_or_missing_positive _ (positive_scale k x Hk Hx)).
  rewrite (fmax_scale k m x Hk Hm Hx).
  destruct (fmax_positive m x Hm Hx) as [HM _].
  rewrite (IH (fmax m x) (or_intror HM)). f_equal.
  destruct (fmax m x) as [| | |M]; try contradiction.
  destruct x as [| | |x]; try contradiction. cbn in HM, Hx.
  cbn [fmul fsub fadd fopp].
  rewrite !fdiv_fin by nra. f_equal. field. lra.
Qed.

Lemma drawdown_scale (k : R) (c : list float) :
  (0 < k)%R -> Forall positive c ->
  Analysis.drawdown (map (fmul (Fin k)) c) = Analysis.drawdown c.
Proof.
  intros Hk Hc. unfold Analysis.drawdown, expanding_max.
  exact (drawdown_from_scale k c Hk Hc NaN (or_introl eq_refl)).
Qed.

(** The prices that the analyzer rebuilds from the returns of a column
    of positive prices, in the unit of that column. *)
Lemma rebased_scale (x : R) (t : list float) :
  (0 < x)%R -> Forall positive t ->
  map (fmul (Fin 100)) (map (fun p => fdiv p (Fin x)) t) = map (fmul (Fin (100 / x))) t.
Proof.
  intros Hx Ht. rewrite map_map. apply map_ext_in. intros p Hp.
  rewrite Forall_forall in Ht. specialize (Ht p Hp).
  destruct p as [| | |p]; try contradiction.
  rewrite fdiv_fin by lra. cbn. f_equal. field. lra.
Qed.

Lemma all_positive_quoted (df : DataFrame) : all_positive df -> all_quoted df.
Proof.
  intros H. eapply Forall_impl; [|exact H]. intros c. apply positive_quoted.
Qed.

(** The deepest drawdown of every column as the analyzer computes it
    from the returns of positive prices. *)
Lemma analyzer_max_drawdown (pad : bool) (prices : DataFrame) :
  wf prices -> all_positive prices -> data prices <> [] ->
  Analysis.calculate_max_drawdown (Analysis.init (Factors.get_returns pad prices))
  = map (fun c : Column => (fst c, min (Analysis.drawdown (tl (snd c))))) (data prices).
Proof.
  intros Hwf Hp Hd.
  rewrite (get_returns_quoted pad prices Hwf (all_positive_quoted prices Hp) Hd).
  unfold Analysis.calculate_max_drawdown, reduce, Analysis.calculate_drawdowns,
    Analysis.init, Analysis._returns_to_prices, map_frame.
  cbn [Analysis.prices index data]. rewrite !map_map. cbn [fst snd].
  apply map_ext_in. intros c Hc. f_equal. f_equal.
  unfold all_positive in Hp. rewrite Forall_forall in Hp. specialize (Hp c Hc).
  destruct (snd c) as [|x t]; [reflexivity|].
  cbn [hd tl]. rewrite (cumprod_changes x t (positive_quoted _ Hp)).
  inversion Hp as [|? ? Hx Ht]; subst.
  destruct x as [| | |x]; try contradiction. cbn in Hx.
  rewrite (rebased_scale x t Hx Ht). apply drawdown_scale; [|exact Ht].
  apply Rdiv_lt_0_compat; lra.
Qed.

(** A higher running peak gives a deeper drawdown in every row. *)
Lemma drawdown_from_mono (c : list float) :
  Forall positive c ->
  forall m m' : float,
    positive m -> m' = NaN \/ (positive m' /\ fle m' m) ->
    Forall2 fle (map2 (fun p m => fdiv (fsub p m) m) c (expanding_max_from m c))
                (map2 (fun p m => fdiv (fsub p m) m) c (expanding_max_from m' c)).
Proof.
  induction 1 as [|x c Hx Hc IH]; intros m m' Hm Hm'; [constructor|].
  cbn [expanding_max_from map2]. rewrite (finite_or_missing_positive x Hx).
  destruct (fmax_positive m x (or_intror Hm) Hx) as [HM HxM].
  assert (Hm'' : m' = NaN \/ positive m') by (destruct Hm' as [?|[? _]]; auto).
  destruct (fmax_positive m' x Hm'' Hx) as [HM' HxM'].
  assert (Hle : fle (fmax m' x) (fmax m x)).
  { destruct Hm' as [->|[Hp Hle]].
    - destruct x as [| | |x]; try contradiction. cbn [fmax].
      destruct m as [| | |m]; try contradiction. cbn. apply Rmax_r.
    - destruct m as [| | |m], m' as [| | |m'], x as [| | |x]; try contradiction.
      cbn in *. apply Rle_max_compat_r. exact Hle. }
  constructor.
  - destruct (fmax m x) as [| | |M]; try contradiction.
    destruct (fmax m' x) as [| | |M']; try contradiction.
    destruct x as [| | |x]; try contradiction. cbn in HM, HM', Hx, HxM, HxM', Hle.
    cbn [fsub fadd fopp]. rewrite !fdiv_fin by lra. cbn [fle].
    assert (H1 : (/ M <= / M')%R) by (apply Rinv_le_contravar; lra).
    unfold Rdiv. replace ((x + - M) * / M)%R with (x * / M - 1)%R by (field; lra).
    replace ((x + - M') * / M')%R with (x * / M' - 1)%R by (field; lra).
    apply Rplus_le_compat_r. apply Rmult_le_compat_l; lra.
  - apply IH; [exact HM|]. right. split; assumption.
Qed.

Lemma Forall2_In_r {A B : Type} (R : A -> B -> Prop) (a : list A) (b : list B) (y : B) :
  Forall2 R a b -> In y b -> exists x, In x a /\ R x y.
Proof.
  induction 1 as [|x0 y0 a b H0 _ IH]; intros Hin; [destruct Hin|].
  destruct Hin as [<-|Hin].
  - exists x0. split; [now left|exact H0].
  - destruct (IH Hin) as [x [Hx HR]]. exists x. split; [now right|exact HR].
Qed.

(** Leaving out the first price can only make the deepest drawdown
    shallower. *)
Lemma max_drawdown_tail (x : float) (t : list float) :
  Forall positive (x :: t) -> t <> [] ->
  fle (min (Analysis.drawdown (x :: t))) (min (Analysis.drawdown t)).
Proof.
  intros Hp Hne. inversion Hp as [|? ? Hx Ht]; subst.
  destruct (min_finite (Analysis.drawdown t) (drawdown_finite t Ht)) as [Hin _].
  { intros E. apply Hne. apply length_zero_iff_nil.
    rewrite <- length_drawdown. now rewrite E. }
  destruct (min_finite (Analysis.drawdown (x :: t)) (drawdown_finite _ Hp)) as [_ Hlb].
  { intros E. pose proof (length_drawdown (x :: t)) as Hl. rewrite E in Hl. discriminate. }
  assert (Hpt : Forall2 fle (tl (Analysis.drawdown (x :: t))) (Analysis.drawdown t)).
  { unfold Analysis.drawdown, expanding_max. cbn [expanding_max_from map2 tl].
    rewrite (finite_or_missing_positive x Hx).
    apply drawdown_from_mono; [exact Ht| |now left].
    destruct x; cbn in *; tauto. }
  destruct (Forall2_In_r _ _ _ _ Hpt Hin) as [d [Hd Hle]].
  apply (fle_trans _ d); [|exact Hle]. apply Hlb.
  unfold Analysis.drawdown, expanding_max in *. cbn [expanding_max_from map2 tl] in *.
  now right.
Qed.

(** X18, in exact arithmetic: on a table of positive prices with
    distinct column names and at least one column, the deepest
    drawdowns that the analyzer computes from [get_returns] are those
    that the geography module computes on the prices without their
    first row; and when the table has at least two rows, the drawdown
    that the geography module computes on the whole table is under the
    same name and at least as deep.  The analyzer works on prices
    rebuilt from returns, so on doubles both the equality and the
    comparison hold up to rounding only. *)
Theorem analyzer_drawdown_skips_first_price (pad : bool) (prices rets : DataFrame) :
  wf prices -> all_positive prices -> data prices <> [] -> NoDup (columns prices) ->
  Analysis.calculate_max_drawdown (Analysis.init (Factors.get_returns pad prices))
  = Geography.analyze_drawdown_by_region (Geography.mkGeography (drop_first_row prices) rets)
  /\ ((2 <= nrows prices)%nat ->
      Forall2 (fun g a : string * float => fst g = fst a /\ fle (snd g) (snd a))
              (Geography.analyze_drawdown_by_region (Geography.mkGeography prices rets))
              (Analysis.calculate_max_drawdown
                 (Analysis.init (Factors.get_returns pad prices)))).
Proof.
  intros Hwf Hp Hd Hnd.
  rewrite (analyzer_max_drawdown pad prices Hwf Hp Hd).
  rewrite !drawdown_by_region_nodup.
  2:{ exact Hnd. }
  2:{ cbn [Geography.prices]. unfold columns, drop_first_row. cbn [data].
      rewrite map_map. exact Hnd. }
  cbn [Geography.prices]. split.
  - unfold drop_first_row. cbn [data]. now rewrite map_map.
  - intros Hrows. unfold wf in Hwf. unfold all_positive in Hp.
    clear Hd Hnd. induction (data prices) as [|c cs IH]; [constructor|].
    inversion Hwf as [|? ? Hc Hwf']; subst. inversion Hp as [|? ? Hpc Hp']; subst.
    cbn [map]. constructor; [|now apply IH].
    cbn [fst snd]. split; [reflexivity|].
    destruct (snd c) as [|x t]; [cbn in Hc; lia|].
    cbn [tl]. apply max_drawdown_tail; [exact Hpc|].
    intros ->. cbn in Hc. lia.
Qed.

Lemma analyzer_drawdown_skips_first_price_witness :
  Analysis.calculate_max_drawdown (Analysis.init (Factors.get_returns false two_quotes))
  = Geography.analyze_drawdown_by_region
      (Geography.mkGeography (drop_first_row two_quotes) two_quotes)
  /\ ((2 <= nrows two_quotes)%nat ->
      Forall2 (fun g a : string * float => fst g = fst a /\ fle (snd g) (snd a))
              (Geography.analyze_drawdown_by_region
                 (Geography.mkGeography two_quotes two_quotes))
              (Analysis.calculate_max_drawdown
                 (Analysis.init (Factors.get_returns false two_quotes)))).
Proof.
  apply (analyzer_drawdown_skips_first_price false two_quotes two_quotes).
  - repeat constructor.
  - repeat constructor; simpl; lra.
  - discriminate.
  - cbn. repeat constructor; cbn; intuition discriminate.
Defined.

(* ================================================================= *)
(** ** Regional contribution: bounds and edges *)





(* ================================================================= *)
(** ** The exchange rate *)

(** X20: [_load_currency_conversion] leaves the dates and the currency
    pair of the loader alone.  When it answers [False] the loader is
    unchanged.  When it answers [True], the fetch returned a table with
    a [Close] column, and the stored rate has the dates of that table
    and one cell per close: the inverse of a finite nonzero close, so
    that their product is 1, and plus infinity for a close of 0. *)
Theorem currency_conversion_inverts_close (P : Factors.Platform)
        (self : Factors.FactorDataLoader) :
  let ok := fst (Factors._load_currency_conversion P self) in
  let self' := snd (Factors._load_currency_conversion P self) in
  Factors.start_date self' = Factors.start_date self
  /\ Factors.end_date self' = Factors.end_date self
  /\ Factors.currency_pair self' = Factors.currency_pair self
  /\ (ok = false -> self' = self)
  /\ (ok = true ->
      exists currency_data close rate,
        Factors._fetch_data P self (Factors.currency_pair self) = Some currency_data
        /\ Factors.getitem currency_data "Close" = Some close
        /\ Factors.usd_eur_rate self' = Some rate
        /\ Factors.sindex rate = index currency_data
        /\ Forall2 (fun c r : float =>
                      (quoted c -> fmul r c = Fin 1) /\ (c = Fin 0 -> r = PInf))
                   (Factors.svalues close) (Factors.svalues rate)).
Proof.
  unfold Factors._load_currency_conversion.
  destruct (Factors._fetch_data P self (Factors.currency_pair self)) as [currency_data|];
    [|cbn; repeat split; discriminate].
  destruct (Factors.getitem currency_data "Close") as [close|] eqn:E;
    [|cbn; repeat split; discriminate].
  cbn [fst snd Factors.start_date Factors.end_date Factors.currency_pair
       Factors.usd_eur_rate].
  repeat (split; [reflexivity|]). split; [discriminate|]. intros _.
  exists currency_data, close. eexists. split; [reflexivity|]. split; [exact E|].
  split; [reflexivity|]. cbn [Factors.sindex Factors.svalues]. split.
  - unfold Factors.getitem in E. destruct (dict_get (data currency_data) "Close");
      [|discriminate]. now injection E as <-.
  - induction (Factors.svalues close) as [|c cs IH]; cbn [map]; constructor;
      [|exact IH]. split.
    + destruct c as [| | |c]; cbn [quoted]; try tauto. intros Hc.
      rewrite fdiv_fin by exact Hc. cbn [fmul]. f_equal. now field.
    + intros ->. apply fdiv_zero_pos. lra.
Qed.

Lemma currency_conversion_inverts_close_witness :
  fst (Factors._load_currency_conversion two_closes first_week) = true
  /\ exists currency_data close rate,
       Factors._fetch_data two_closes first_week (Factors.currency_pair first_week)
       = Some currency_data
       /\ Factors.getitem currency_data "Close" = Some close
       /\ Factors.usd_eur_rate (snd (Factors._load_currency_conversion two_closes first_week))
          = Some rate
       /\ Factors.sindex rate = index currency_data
       /\ Forall2 (fun c r : float =>
                     (quoted c -> fmul r c = Fin 1) /\ (c = Fin 0 -> r = PInf))
                  (Factors.svalues close) (Factors.svalues rate).
Proof.
  split; [reflexivity|].
  apply (proj2 (proj2 (proj2 (proj2
           (currency_conversion_inverts_close two_closes first_week))))).
  reflexivity.
Defined.

(* ================================================================= *)
(** ** The geographic summary *)

Lemma period_return_rows (self : Geography.GeographyAnalyzer) :
  (nrows (Geography.prices self) = O -> Geography.period_return self = Raise IndexError)
  /\ (nrows (Geography.prices self) <> O ->
      exists ratios, Geography.period_return self = Ok ratios).
Proof.
  unfold Geography.period_return, iloc_last, iloc_first.
  destruct (nrows (Geography.prices self)); split; intros H;
    try contradiction; try discriminate; cbn [bind]; eauto.
Qed.

Lemma py_div_zero (a : R) : Analysis.py_div a (IZR 0) = Raise ZeroDivisionError.
Proof. unfold Analysis.py_div. destruct (Req_dec_T (IZR 0) 0); [reflexivity|lra]. Qed.

Lemma py_div_years_empty (trading_days : Z) :
  trading_days <> 0%Z ->
  (x <- Analysis.py_div (INR 0) (IZR trading_days) ;; Analysis.py_div 1 x)
  = Raise ZeroDivisionError.
Proof.
  intros Htd. unfold Analysis.py_div.
  destruct (Req_dec_T (IZR trading_days) 0) as [Hz|Hz].
  { exfalso. apply Htd. now apply eq_IZR_R0. }
  cbn [bind INR]. destruct (Req_dec_T (0 / IZR trading_days) 0) as [_|Hy]; [reflexivity|].
  exfalso. apply Hy. unfold Rdiv. apply Rmult_0_l.
Qed.

Lemma risk_adjusted_cases (self : Geography.GeographyAnalyzer)
      (risk_free_rate : R) (trading_days : Z) :
  (trading_days = 0%Z ->
   Geography.calculate_risk_adjusted_returns self risk_free_rate trading_days
   = Raise ZeroDivisionError)
  /\ (trading_days <> 0%Z -> nrows (Geography.prices self) = O ->
      Geography.calculate_risk_adjusted_returns self risk_free_rate trading_days
      = Raise IndexError)
  /\ (trading_days <> 0%Z -> nrows (Geography.prices self) <> O ->
      nrows (Geography.returns self) = O ->
      Geography.calculate_risk_adjusted_returns self risk_free_rate trading_days
      = Raise ZeroDivisionError)
  /\ (trading_days <> 0%Z -> nrows (Geography.prices self) <> O ->
      nrows (Geography.returns self) <> O ->
      exists fr,
        Geography.calculate_risk_adjusted_returns self risk_free_rate trading_days
        = Ok fr).
Proof.
  unfold Geography.calculate_risk_adjusted_returns. split; [|split; [|split]].
  - intros ->. now rewrite py_div_zero.
  - intros Htd Hn. unfold Analysis.py_div at 1.
    destruct (Req_dec_T (IZR trading_days) 0) as [Hz|Hz].
    { exfalso. apply Htd. now apply eq_IZR_R0. }
    cbn [bind]. now rewrite (proj1 (period_return_rows self) Hn).
  - intros Htd Hn Hr. rewrite Hr. pose proof (py_div_years_empty trading_days Htd) as H.
    destruct (Analysis.py_div (INR 0) (IZR trading_days)) as [y|e];
      [|cbn [bind] in *; now injection H as ->].
    cbn [bind] in *. destruct (proj2 (period_return_rows self) Hn) as [ratios ->].
    cbn [bind]. now rewrite H.
  - intros Htd Hn Hr. destruct (py_div_years _ _ Htd Hr) as [e He].
    destruct (Analysis.py_div (INR (nrows (Geography.returns self))) (IZR trading_days))
      as [y|err]; [|discriminate].
    cbn [bind] in *. destruct (proj2 (period_return_rows self) Hn) as [ratios ->].
    cbn [bind]. rewrite He. cbn [bind]. eauto.
Qed.

(** X21: the order in which the two summaries of the geography module
    fail.  [calculate_risk_adjusted_returns] divides by [trading_days]
    before it reads the prices, so it raises [ZeroDivisionError] for
    [trading_days = 0] even on an empty price table, [IndexError] on an
    empty price table otherwise, and [ZeroDivisionError] again when
    only the return table is empty.  [get_geographic_summary] reads the
    prices first: it raises [IndexError] on an empty price table
    whatever [trading_days] is, and [ZeroDivisionError] when the prices
    have rows and [trading_days] is 0 or the return table is empty. *)
Theorem geography_error_order (self : Geography.GeographyAnalyzer)
        (risk_free_rate : R) (trading_days : Z) :
  let risk := Geography.calculate_risk_adjusted_returns self risk_free_rate trading_days in
  let summary := Geography.get_geographic_summary self risk_free_rate trading_days in
  (trading_days = 0%Z -> risk = Raise ZeroDivisionError)
  /\ (trading_days <> 0%Z -> nrows (Geography.prices self) = O ->
      risk = Raise IndexError)
  /\ (trading_days <> 0%Z -> nrows (Geography.prices self) <> O ->
      nrows (Geography.returns self) = O -> risk = Raise ZeroDivisionError)
  /\ (nrows (Geography.prices self) = O -> summary = Raise IndexError)
  /\ (nrows (Geography.prices self) <> O ->
      trading_days = 0%Z \/ nrows (Geography.returns self) = O ->
      summary = Raise ZeroDivisionError).
Proof.
  intros risk summary.
  destruct (risk_adjusted_cases self risk_free_rate trading_days) as [H1 [H2 [H3 _]]].
  fold risk in H1, H2, H3.
  split; [exact H1|]. split; [exact H2|]. split; [exact H3|].
  unfold summary, Geography.get_geographic_summary. fold risk.
  split.
  - intros Hn. now rewrite (proj1 (period_return_rows self) Hn).
  - intros Hn Hz. destruct (proj2 (period_return_rows self) Hn) as [ratios ->].
    cbn [bind]. destruct (Z.eq_dec trading_days 0) as [Htd|Htd].
    + now rewrite (H1 Htd).
    + destruct Hz as [Hz|Hz]; [contradiction|]. now rewrite (H3 Htd Hn Hz).
Qed.

Lemma geography_error_order_witness :
  Geography.calculate_risk_adjusted_returns
    (Geography.mkGeography (mkDataFrame [] []) (mkDataFrame [] [])) 0.02 0
  = Raise ZeroDivisionError
  /\ Geography.get_geographic_summary
       (Geography.mkGeography (mkDataFrame [] []) (mkDataFrame [] [])) 0.02 0
     = Raise IndexError
  /\ Geography.get_geographic_summary
       (Geography.mkGeography (Geography.prices two_regions) (mkDataFrame [] [])) 0.02 252
     = Raise ZeroDivisionError.
Proof.
  pose proof (geography_error_order
                (Geography.mkGeography (mkDataFrame [] []) (mkDataFrame [] [])) 0.02 0)
    as Hempty.
  pose proof (geography_error_order
                (Geography.mkGeography (Geography.prices two_regions) (mkDataFrame [] []))
                0.02 252) as Hfull.
  cbv zeta in Hempty, Hfull.
  destruct Hempty as [H1 [_ [_ [H4 _]]]]. destruct Hfull as [_ [_ [_ [_ H5]]]].
  split; [apply H1; reflexivity|]. split; [apply H4; reflexivity|].
  apply H5; [discriminate|]. right. reflexivity.
Defined.





(* ================================================================= *)
(** ** The diversification ratio is at least 1 *)

Lemma dot_vadd_self (a : list R) :
  forall b, length a = length b ->
    dot (map2 Rplus a b) (map2 Rplus a b) = (dot a a + 2 * dot a b + dot b b)%R.
Proof.
  induction a as [|x a IH]; intros [|y b] H; try discriminate.
  - unfold dot, Rsum. cbn. lra.
  - cbn [map2]. rewrite !dot_cons. rewrite IH by (cbn in H; lia). ring.
Qed.

Lemma norm_nonneg (v : list R) : (0 <= norm v)%R.
Proof. apply sqrt_pos. Qed.

Lemma norm_square (v : list R) : (norm v * norm v = dot v v)%R.
Proof. unfold norm. apply sqrt_sqrt. apply dot_self_nonneg. Qed.

(** The triangle inequality. *)
Lemma norm_triangle (a b : list R) :
  length a = length b -> (norm (map2 Rplus a b) <= norm a + norm b)%R.
Proof.
  intros H.
  pose proof (norm_nonneg a) as Ha. pose proof (norm_nonneg b) as Hb.
  pose proof (norm_nonneg (map2 Rplus a b)) as Hab.
  pose proof (norm_square a) as Sa. pose proof (norm_square b) as Sb.
  pose proof (norm_square (map2 Rplus a b)) as Sab.
  rewrite (dot_vadd_self a b H) in Sab.
  pose proof (cauchy_schwarz a b) as CS. rewrite <- Sa, <- Sb in CS.
  set (na := norm a) in *. set (nb := norm b) in *.
  set (nab := norm (map2 Rplus a b)) in *. set (c := dot a b) in *.
  assert (Hc : (c <= na * nb)%R).
  { destruct (Rle_dec c (na * nb)) as [|Hn]; [assumption|]. exfalso.
    assert (0 <= na * nb)%R by nra. nra. }
  destruct (Rle_dec nab (na + nb)) as [|Hn]; [assumption|]. exfalso. nra.
Qed.

Lemma dot_scale (w : R) (a : list R) :
  dot (map (fun x => (x * w)%R) a) (map (fun x => (x * w)%R) a) = (w * w * dot a a)%R.
Proof.
  induction a as [|x a IH]; [unfold dot, Rsum; cbn; lra|].
  cbn [map]. rewrite !dot_cons, IH. ring.
Qed.

Lemma norm_scale (w : R) (a : list R) :
  (0 <= w)%R -> norm (map (fun x => (x * w)%R) a) = (w * norm a)%R.
Proof.
  intros Hw. unfold norm. rewrite dot_scale.
  rewrite sqrt_mult by (try nra; apply dot_self_nonneg).
  now rewrite sqrt_square.
Qed.

Lemma Rsum_vadd (a : list R) :
  forall b, length a = length b -> Rsum (map2 Rplus a b) = (Rsum a + Rsum b)%R.
Proof.
  induction a as [|x a IH]; intros [|y b] H; try discriminate.
  - unfold Rsum. cbn. lra.
  - cbn [map2]. unfold Rsum in *. cbn [fold_right]. rewrite IH by (cbn in H; lia). lra.
Qed.

Lemma Rsum_scale (w : R) (a : list R) :
  Rsum (map (fun x => (x * w)%R) a) = (w * Rsum a)%R.
Proof.
  induction a as [|x a IH]; unfold Rsum in *; cbn; [lra|]. rewrite IH. lra.
Qed.

Lemma shift_vadd (ma mb : R) (a : list R) :
  forall b,
    map (fun x => (x - (ma + mb))%R) (map2 Rplus a b)
    = map2 Rplus (map (fun x => (x - ma)%R) a) (map (fun x => (x - mb)%R) b).
Proof.
  induction a as [|x a IH]; intros [|y b]; cbn; try reflexivity.
  rewrite IH. f_equal. lra.
Qed.

Lemma dev_vadd (a b : list R) :
  length a = length b -> dev (map2 Rplus a b) = map2 Rplus (dev a) (dev b).
Proof.
  intros H. unfold dev, Rmean. rewrite (Rsum_vadd a b H), length_map2, <- H, Nat.min_id.
  rewrite <- shift_vadd. apply map_ext. intros x. f_equal.
  unfold Rdiv. ring.
Qed.

Lemma dev_scale (w : R) (a : list R) :
  dev (map (fun x => (x * w)%R) a) = map (fun x => (x * w)%R) (dev a).
Proof.
  unfold dev, Rmean. rewrite Rsum_scale, length_map, !map_map.
  apply map_ext. intros x. unfold Rdiv. ring.
Qed.

Lemma length_dev (a : list R) : length (dev a) = length a.
Proof. unfold dev. apply length_map. Qed.

Lemma list_as_nths (X : list R) : map (fun i => nth i X 0%R) (seq 0 (length X)) = X.
Proof.
  induction X as [|x X IH]; [reflexivity|].
  cbn [length seq map nth]. f_equal.
  rewrite <- seq_shift, map_map. exact IH.
Qed.

Lemma length_prow (w : R) (Xs : list (list R)) (m : nat) : length (prow w Xs m) = m.
Proof. unfold prow. now rewrite length_map, length_seq. Qed.

Lemma prow_cons (w : R) (X : list R) (Xs : list (list R)) (m : nat) :
  length X = m ->
  prow w (X :: Xs) m = map2 Rplus (map (fun x => (x * w)%R) X) (prow w Xs m).
Proof.
  intros H. unfold prow.
  replace (map (fun x => (x * w)%R) X)
    with (map (fun x => (x * w)%R) (map (fun i => nth i X 0%R) (seq 0 m)))
    by (now rewrite <- H, list_as_nths).
  rewrite map_map, map2_map_map. apply map_ext. intros i. reflexivity.
Qed.

(** The deviations of the portfolio are no longer than the weighted
    sum of the lengths of the deviations of the columns. *)
Lemma portfolio_norm (w : R) (m : nat) (Xs : list (list R)) :
  (0 <= w)%R -> Forall (fun X => length X = m) Xs ->
  (norm (dev (prow w Xs m)) <= w * Rsum (map (fun X => norm (dev X)) Xs))%R.
Proof.
  intros Hw. induction 1 as [|X Xs HX _ IH].
  - assert (Hz : Forall (fun z => z = 0%R) (prow w [] m)).
    { unfold prow. apply Forall_map. apply Forall_forall. intros i _. reflexivity. }
    unfold norm. rewrite (dot_zeros _ (dev_zeros _ Hz)), sqrt_0.
    unfold Rsum. cbn. lra.
  - rewrite (prow_cons w X Xs m HX).
    rewrite dev_vadd by (now rewrite length_map, length_prow).
    rewrite dev_scale.
    eapply Rle_trans.
    { apply norm_triangle. now rewrite length_map, !length_dev, length_prow. }
    rewrite (norm_scale w (dev X) Hw). cbn [map]. unfold Rsum in *. cbn [fold_right].
    lra.
Qed.

Lemma sd_norm (X : list R) :
  (2 <= length X)%nat -> sd X = (norm (dev X) / sqrt (INR (length X) - 1))%R.
Proof.
  intros H. unfold sd, norm. apply sqrt_div_alt.
  assert (2 <= INR (length X))%R by (change 2%R with (INR 2); now apply le_INR).
  lra.
Qed.

Lemma Rsum_sd (m : nat) (Xs : list (list R)) :
  (2 <= m)%nat -> Forall (fun X => length X = m) Xs ->
  Rsum (map sd Xs) = (Rsum (map (fun X => norm (dev X)) Xs) / sqrt (INR m - 1))%R.
Proof.
  intros Hm. induction 1 as [|X Xs HX _ IH]; unfold Rsum in *; cbn [map fold_right].
  - unfold Rdiv. ring.
  - rewrite IH, sd_norm by lia. rewrite HX. unfold Rdiv. ring.
Qed.

(** The sample deviation of the equal-weighted portfolio is at most the
    weighted sum of the sample deviations of the columns. *)
Lemma portfolio_sd (w : R) (m : nat) (Xs : list (list R)) :
  (0 <= w)%R -> (2 <= m)%nat -> Forall (fun X => length X = m) Xs ->
  (sd (prow w Xs m) <= w * Rsum (map sd Xs))%R.
Proof.
  intros Hw Hm HXs. rewrite (Rsum_sd m Xs Hm HXs).
  rewrite sd_norm by (now rewrite length_prow). rewrite length_prow.
  assert (Hs : (0 < sqrt (INR m - 1))%R).
  { apply sqrt_lt_R0.
    assert (2 <= INR m)%R by (change 2%R with (INR 2); now apply le_INR). lra. }
  pose proof (portfolio_norm w m Xs Hw HXs) as H.
  unfold Rdiv. rewrite <- Rmult_assoc.
  apply Rmult_le_compat_r; [|exact H].
  left. now apply Rinv_0_lt_compat.
Qed.

Lemma finite_as_reals (c : list float) :
  Forall (fun x => is_fin x = true) c -> c = map Fin (map real_of c).
Proof.
  induction 1 as [|x c Hx _ IH]; [reflexivity|].
  destruct x; try discriminate. cbn [map real_of]. now rewrite <- IH.
Qed.

Lemma filter_present_reals (X : list R) :
  filter (fun x => negb (is_nan x)) (map Fin X) = map Fin X.
Proof. induction X as [|x X IH]; [reflexivity|]. cbn. now rewrite IH. Qed.

Lemma reals_map_Fin (X : list R) : reals (map Fin X) = Some X.
Proof. induction X as [|x X IH]; [reflexivity|]. cbn. now rewrite IH. Qed.

Lemma std_reals (X : list R) : (2 <= length X)%nat -> std (map Fin X) = Fin (sd X).
Proof.
  intros H. unfold std. rewrite filter_present_reals, reals_map_Fin.
  destruct (Nat.leb_spec (length X) 1); [lia|reflexivity].
Qed.

Lemma sum_reals (ys : list R) :
  forall a : R,
    fold_left fadd (map (fill (Fin 0)) (map Fin ys)) (Fin a) = Fin (a + Rsum ys).
Proof.
  induction ys as [|y ys IH]; intros a.
  - cbn. f_equal. unfold Rsum. cbn. lra.
  - cbn [map fold_left fill is_nan fadd]. rewrite IH. f_equal.
    unfold Rsum. cbn [fold_right]. lra.
Qed.

Lemma weighted_row (w : R) (xs : list R) :
  map2 fmul (map Fin xs) (repeat (Fin w) (length xs))
  = map Fin (map (fun x => (x * w)%R) xs).
Proof. induction xs as [|x xs IH]; [reflexivity|]. cbn. now rewrite IH. Qed.

(** The portfolio returns of a table of finite cells. *)
Lemma weighted_row_sums_reals (df : DataFrame) (w : R) :
  wf df -> all_finite df ->
  Geography.weighted_row_sums df (repeat (Fin w) (length (data df)))
  = map Fin (prow w (map (fun c : Column => map real_of (snd c)) (data df)) (nrows df)).
Proof.
  intros Hwf Hfin. unfold Geography.weighted_row_sums, rows, prow.
  rewrite !map_map. apply map_ext_in. intros i Hi. apply in_seq in Hi.
  unfold row_at.
  assert (Hrow : map (fun c : Column => cell i (snd c)) (data df)
                 = map Fin (map (fun c : Column => nth i (map real_of (snd c)) 0%R)
                                (data df))).
  { rewrite map_map. apply map_ext_in. intros c Hc.
    unfold wf in Hwf. unfold all_finite in Hfin. rewrite Forall_forall in Hwf, Hfin.
    specialize (Hwf c Hc). specialize (Hfin c Hc).
    rewrite (finite_as_reals _ Hfin) at 1. unfold cell.
    apply nth_map_in. rewrite length_map. lia. }
  rewrite Hrow.
  replace (length (data df))
    with (length (map (fun c : Column => nth i (map real_of (snd c)) 0%R) (data df)))
    by apply length_map.
  rewrite weighted_row. unfold sum. rewrite sum_reals. f_equal.
  rewrite Rplus_0_l, !map_map. reflexivity.
Qed.

Lemma individual_vols_reals (df : DataFrame) :
  wf df -> all_finite df -> (2 <= nrows df)%nat ->
  map snd (reduce std df)
  = map Fin (map sd (map (fun c : Column => map real_of (snd c)) (data df))).
Proof.
  intros Hwf Hfin Hrows. unfold reduce. rewrite !map_map. cbn [snd].
  apply map_ext_in. intros c Hc.
  unfold wf in Hwf. unfold all_finite in Hfin. rewrite Forall_forall in Hwf, Hfin.
  specialize (Hwf c Hc). specialize (Hfin c Hc).
  rewrite (finite_as_reals _ Hfin) at 1. apply std_reals. rewrite length_map. lia.
Qed.

Lemma Rsum_nonneg (l : list R) : Forall (fun x => (0 <= x)%R) l -> (0 <= Rsum l)%R.
Proof.
  induction 1 as [|x l Hx _ IH]; unfold Rsum in *; cbn; [lra|]. lra.
Qed.

(** X23: on a well-formed return table of finite numbers with at least
    two rows and one column, [calculate_diversification_ratio] returns
    a number that is at least 1, or, when the portfolio has no
    volatility, plus infinity or not-a-number: never a finite number
    below 1. *)
Theorem diversification_ratio_at_least_one (self : Geography.GeographyAnalyzer) :
  wf (Geography.returns self) -> all_finite (Geography.returns self) ->
  data (Geography.returns self) <> [] -> (2 <= nrows (Geography.returns self))%nat ->
  exists r,
    Geography.calculate_diversification_ratio self = Ok r
    /\ (r = NaN \/ r = PInf \/ exists x, r = Fin x /\ (1 <= x)%R).
Proof.
  intros Hwf Hfin Hd Hrows.
  unfold Geography.calculate_diversification_ratio, columns.
  set (df := Geography.returns self) in *. rewrite length_map.
  set (k := length (data df)).
  assert (Hk : k <> O).
  { unfold k. destruct (data df); [contradiction|discriminate]. }
  pose proof (INR_pos k Hk) as Hpos.
  unfold Analysis.py_div. destruct (Req_dec_T (INR k) 0) as [Hz|_]; [lra|].
  cbn [bind]. eexists. split; [reflexivity|].
  set (w := (1 / INR k)%R).
  assert (Hw : (0 < w)%R) by (unfold w; apply Rdiv_lt_0_compat; lra).
  set (Xs := map (fun c : Column => map real_of (snd c)) (data df)).
  assert (HXs : Forall (fun X => length X = nrows df) Xs).
  { unfold Xs. apply Forall_map. unfold wf in Hwf. eapply Forall_impl; [|exact Hwf].
    intros c Hc. now rewrite length_map. }
  unfold k. rewrite (weighted_row_sums_reals df w Hwf Hfin). fold Xs.
  rewrite (individual_vols_reals df Hwf Hfin Hrows). fold Xs.
  rewrite std_reals by (now rewrite length_prow).
  unfold Geography.np_dot.
  replace (length (data df)) with (length (map Fin (map sd Xs)))
    by (unfold Xs; now rewrite !length_map).
  rewrite weighted_sum_tame.
  2:{ apply Forall_map. apply Forall_forall. intros s _. right. eauto. }
  rewrite reals_map_Fin.
  pose proof (portfolio_sd w (nrows df) Xs (Rlt_le _ _ Hw) Hrows HXs) as Hle.
  assert (Hp : (0 <= sd (prow w Xs (nrows df)))%R) by apply sqrt_pos.
  set (p := sd (prow w Xs (nrows df))) in *.
  set (a := (w * Rsum (map sd Xs))%R) in *.
  replace (0 + a)%R with a by lra.
  destruct (Req_dec_T p 0) as [Hp0|Hp0].
  - rewrite Hp0. destruct (Rlt_dec 0 a) as [Ha|Ha].
    + right. left. now apply fdiv_zero_pos.
    + left. replace a with 0%R by lra. cbn [fdiv].
      destruct (Req_dec_T 0 0); [|lra]. now rewrite Rsign_zero.
  - right. right. rewrite fdiv_fin by exact Hp0. eexists. split; [reflexivity|].
    apply Rmult_le_reg_r with p; [lra|]. unfold Rdiv.
    rewrite Rmult_assoc, Rinv_l by exact Hp0. lra.
Qed.

Lemma diversification_ratio_at_least_one_witness :
  exists r,
    Geography.calculate_diversification_ratio two_assets = Ok r
    /\ (r = NaN \/ r = PInf \/ exists x, r = Fin x /\ (1 <= x)%R).
Proof.
  apply (diversification_ratio_at_least_one two_assets).
  - repeat constructor.
  - repeat constructor.
  - discriminate.
  - cbn. lia.
Defined.

(** X24: [calculate_diversification_ratio] raises [ZeroDivisionError]
    exactly when the return table has no column. *)
Theorem diversification_ratio_no_columns (self : Geography.GeographyAnalyzer) :
  Geography.calculate_diversification_ratio self = Raise ZeroDivisionError
  <-> data (Geography.returns self) = [].
Proof.
  unfold Geography.calculate_diversification_ratio, columns, Analysis.py_div.
  rewrite length_map. split.
  - intros H. destruct (data (Geography.returns self)) as [|c cs]; [reflexivity|].
    exfalso. destruct (Req_dec_T (INR (length (c :: cs))) 0) as [Hz|_]; [|discriminate].
    assert (0 < INR (length (c :: cs)))%R by (apply INR_pos; discriminate). lra.
  - intros ->. cbn [length INR]. destruct (Req_dec_T 0 0); [reflexivity|lra].
Qed.

(* ================================================================= *)
(** ** Prices rebuilt from returns *)

(** X25: the prices that [__init__] stores are, cell by cell, 100 times
    one plus the cumulative return of the same cell, whatever the
    return table holds. *)
Theorem prices_from_cumulative_returns (rets : DataFrame) :
  Analysis.prices (Analysis.init rets)
  = map_frame (fun x => fmul (Fin 100) (fadd (Fin 1) x))
              (Analysis.calculate_cumulative_returns (Analysis.init rets)).
Proof.
  unfold Analysis.init, Analysis._returns_to_prices, Analysis.calculate_cumulative_returns,
    map_frame.
  cbn [Analysis.prices Analysis.returns index data]. f_equal.
  rewrite !map_map. apply map_ext. intros c. cbn [fst snd]. f_equal.
  rewrite map_map. apply map_ext. intros x. now rewrite fadd_fsub_one.
Qed.

Lemma np_cumprod_from_positive (l : list float) :
  Forall positive l ->
  forall acc, positive acc -> Forall positive (np_cumprod_from acc l).
Proof.
  induction 1 as [|x l Hx _ IH]; intros acc Hacc; [constructor|].
  cbn [np_cumprod_from].
  assert (H : positive (fmul acc x)).
  { destruct acc, x; cbn in *; try tauto. nra. }
  constructor; [exact H|]. now apply IH.
Qed.

Lemma growth_positive (c : list float) :
  Forall above_minus_one c ->
  complete c /\ Forall positive (cumprod (map (fadd (Fin 1)) c)).
Proof.
  intros H.
  assert (Hc : complete c).
  { eapply Forall_impl; [|exact H]. intros x. now destruct x. }
  split; [exact Hc|].
  rewrite cumprod_complete by (now apply growth_complete).
  assert (Hg : Forall positive (map (fadd (Fin 1)) c)).
  { apply Forall_map. eapply Forall_impl; [|exact H].
    intros x. destruct x; cbn; try tauto. lra. }
  destruct (map (fadd (Fin 1)) c) as [|g gs]; [constructor|].
  inversion Hg as [|? ? Hg0 Hgs]; subst. cbn [np_cumprod].
  constructor; [exact Hg0|]. now apply np_cumprod_from_positive.
Qed.

(** X26, in exact arithmetic: when every return of the table is a
    number above -1, the prices that [__init__] stores are all positive
    numbers, and every cumulative return is a number above -1.  On
    doubles a long run of heavy losses rounds the cumulative return to
    -1 and lets the price underflow to 0. *)
Theorem analyzer_prices_positive (rets : DataFrame) :
  Forall (fun c : Column => Forall above_minus_one (snd c)) (data rets) ->
  all_positive (Analysis.prices (Analysis.init rets))
  /\ Forall (fun c : Column => Forall above_minus_one (snd c))
            (data (Analysis.calculate_cumulative_returns (Analysis.init rets))).
Proof.
  intros H. unfold all_positive, Analysis.init, Analysis._returns_to_prices,
    Analysis.calculate_cumulative_returns, map_frame.
  cbn [Analysis.prices Analysis.returns index data]. rewrite map_map. cbn [fst snd].
  split; apply Forall_map; (eapply Forall_impl; [|exact H]); intros c Hc; cbn [snd];
    destruct (growth_positive (snd c) Hc) as [_ Hpos]; apply Forall_map;
    (eapply Forall_impl; [|exact Hpos]); intros x Hx;
    destruct x; cbn in *; try tauto; lra.
Qed.

Lemma analyzer_prices_positive_witness :
  all_positive (Analysis.prices (Analysis.init flat_returns))
  /\ Forall (fun c : Column => Forall above_minus_one (snd c))
            (data (Analysis.calculate_cumulative_returns (Analysis.init flat_returns))).
Proof.
  apply (analyzer_prices_positive flat_returns).
  repeat constructor; cbn; lra.
Defined.

(* ================================================================= *)
(** ** The table that [load_tickers] returns *)

















(* ================================================================= *)
(** ** Where rounding decides *)

(** Two doubles that the kernel evaluates to different numbers. *)
Ltac doubles_differ :=
  let H := fresh "H" in
  intros H;
  match type of H with
  | _ = ?b => apply (f_equal (fun x => PrimFloat.eqb x b)) in H
  end;
  vm_compute in H; discriminate.

(** C10 as stated fails on doubles: three regions that end at the same
    price get 33.33333333333333 each, and these shares add up to
    99.99999999999999, not to 100. *)
Lemma regional_contribution_rounding_counterexample :
  Binary64.sum Binary64.equal_final_prices <> PrimFloat.zero
  /\ Binary64.sum (Binary64.calculate_regional_contribution Binary64.equal_final_prices)
     <> Binary64.hundred.
Proof. split; doubles_differ. Qed.

(** C9 as stated fails on doubles: on two days of returns of two
    regions the code returns 5.0, and the ratio of the annualized
    volatilities is 4.999999999999999; the portfolio has a nonzero
    volatility. *)
Lemma diversification_ratio_rounding_counterexample :
  Binary64.std (Binary64.equal_weighted_portfolio Binary64.two_day_returns)
  <> PrimFloat.zero
  /\ Binary64.calculate_diversification_ratio Binary64.two_day_returns
     <> Binary64.spec_diversification_ratio Binary64.two_day_returns.
Proof. split; doubles_differ. Qed.


